(** * cutils.knspace: the namespace registry and the named-entity mixin

    A shallow embedding of [cutils/knspace.py].  The two classes of the
    module, [KNSpace] and [KNSpaceBehavior], live on a heap of objects and
    are translated method by method into a small state-and-exception
    monad; recursion that Python does not bound (attribute lookup through
    parents, the walk of [_get_knspace]) takes fuel.

    The event runtime the classes are built on is external to the module.
    What the methods call of it is given in [Module EventDispatcher]: every
    dispatcher has its own table of observable slots, [property] answers
    None for an unknown name only when asked quietly, and a namespace entry
    is the [proxy_ref] of the stored object when it has one.  Observers bound
    to the slots are not part of the model. *)

From stdpp Require Import gmap strings list fin_maps.

(** ** Values, exceptions, outcomes *)

(** What a namespace entry can hold. *)
Inductive value :=
| VNone                (* None *)
| VObj (o : nat)       (* the object living at address [o] *)
| VProxy (o : nat)     (* the weak handle object [o] hands out as [proxy_ref] *)
| VOpaque.             (* an attribute defined by the class, e.g. a method *)

#[global] Instance value_eq_dec : EqDecision value.
Proof. solve_decision. Defined.

Inductive exn :=
| AttributeError (name : string)
| KeyError (name : string)
| ValueError_clone                (* 'Cannot clone with no namesapce' *)
| ValueError_name (name : string) (* 'Object has name "..", but no namespace' *)
| ReferenceError.                 (* the address holds no such object *)

#[global] Instance exn_eq_dec : EqDecision exn.
Proof. solve_decision. Defined.

(** A call returns, raises, or is still running when the fuel is spent. *)
Inductive result (A : Type) :=
| Ok (a : A)
| Raise (e : exn)
| OutOfFuel.
Arguments Ok {A} a.
Arguments Raise {A} e.
Arguments OutOfFuel {A}.

(** ** The heap *)

(** A property descriptor, as built by [ObjectProperty(default, ...)]. *)
Record Property := MkProperty {
  prop_id : nat;
  defaultvalue : value }.

(** An observable slot of one dispatcher: the descriptor and the value it
    currently stores for that dispatcher. *)
Record PropertyStorage := Slot {
  descriptor : Property;
  slot_value : value }.

(** A [KNSpace] instance.  [props] are its observable slots, [dict] its
    plain instance attributes; [parent] and [has_applied] are the two
    attributes [__init__] assigns. *)
Record knspace_obj := MkKNSpace {
  parent : option nat;
  has_applied : gset string;
  props : gmap string PropertyStorage;
  dict : gmap string value }.

(** The state [KNSpaceBehavior] adds to its host object. *)
Record behavior := MkBehavior {
  _knspace : option nat;        (* explicit namespace, None when unset *)
  _name : string;
  knspace_key : string;         (* '' also stands for None *)
  last_knspace : option nat }.  (* __last_knspace *)

(** An object of the structural tree.  [links] are its attributes that
    reference other tree objects (an absent key reads as None);
    [knspace_attr] is the plain [knspace] attribute of an object without
    the mixin: [None] when the object has no such attribute,
    [Some None] when the attribute is None.  [proxied] tells whether
    [proxy_ref] yields a handle distinct from the object. *)
Record object := MkObject {
  links : gmap string nat;
  knspace_attr : option (option nat);
  proxied : bool;
  mixin : option behavior }.

Record world := World {
  class_attrs : gset string;  (* names bound on the class KNSpace or its bases *)
  spaces : gmap nat knspace_obj;
  objs : gmap nat object;
  prop_count : nat }.         (* descriptors built so far *)

(** The module-level default root namespace, [knspace = KNSpace()]. *)
Definition knspace : nat := 0.

Definition set_spaces (f : gmap nat knspace_obj → gmap nat knspace_obj)
    (σ : world) : world :=
  World (class_attrs σ) (f (spaces σ)) (objs σ) (prop_count σ).

Definition set_objs (f : gmap nat object → gmap nat object) (σ : world) : world :=
  World (class_attrs σ) (spaces σ) (f (objs σ)) (prop_count σ).

Definition set_prop_count (n : nat) (σ : world) : world :=
  World (class_attrs σ) (spaces σ) (objs σ) n.

Definition set_props (f : gmap string PropertyStorage → gmap string PropertyStorage)
    (o : knspace_obj) : knspace_obj :=
  MkKNSpace (parent o) (has_applied o) (f (props o)) (dict o).

Definition set_dict (f : gmap string value → gmap string value)
    (o : knspace_obj) : knspace_obj :=
  MkKNSpace (parent o) (has_applied o) (props o) (f (dict o)).

Definition add_applied (name : string) (o : knspace_obj) : knspace_obj :=
  MkKNSpace (parent o) ({[name]} ∪ has_applied o) (props o) (dict o).

Definition set_mixin (b : behavior) (o : object) : object :=
  MkObject (links o) (knspace_attr o) (proxied o) (Some b).

Definition with_knspace (v : option nat) (b : behavior) : behavior :=
  MkBehavior v (_name b) (knspace_key b) (last_knspace b).

Definition with_name (s : string) (b : behavior) : behavior :=
  MkBehavior (_knspace b) s (knspace_key b) (last_knspace b).

Definition with_last (v : option nat) (b : behavior) : behavior :=
  MkBehavior (_knspace b) (_name b) (knspace_key b) v.

(** ** The monad: state is kept when an exception is raised *)

Definition M (A : Type) : Type := world → world * result A.

Definition ret {A} (a : A) : M A := λ σ, (σ, Ok a).

Definition bind {A B} (m : M A) (k : A → M B) : M B := λ σ,
  match m σ with
  | (σ', Ok a) => k a σ'
  | (σ', Raise e) => (σ', Raise e)
  | (σ', OutOfFuel) => (σ', OutOfFuel)
  end.

Definition raise {A} (e : exn) : M A := λ σ, (σ, Raise e).
Definition out_of_fuel {A} : M A := λ σ, (σ, OutOfFuel).
Definition gets {A} (f : world → A) : M A := λ σ, (σ, Ok (f σ)).
Definition modify (f : world → world) : M unit := λ σ, (f σ, Ok tt).

Notation "x <- m ;; k" := (bind m (λ x, k))
  (at level 100, m at next level, right associativity).
Notation "m ;;; k" := (bind m (λ _, k))
  (at level 100, right associativity).

(** Python truthiness of the things the module tests. *)
Definition nonempty (s : string) : bool := negb (bool_decide (s = "")).
Definition truthy {A} (v : option A) : bool := bool_decide (is_Some v).

(** ** The event runtime, as far as the module calls it *)
Module EventDispatcher.

Definition the_space (r : nat) : M knspace_obj := λ σ,
  match spaces σ !! r with
  | Some o => (σ, Ok o)
  | None => (σ, Raise ReferenceError)
  end.

Definition update_space (r : nat) (f : knspace_obj → knspace_obj) : M unit :=
  modify (set_spaces (alter f r)).

(** [property(name, quiet)]: the descriptor of the slot [name]; for a name
    without slot, None when [quiet] and a KeyError otherwise. *)
Definition property (r : nat) (name : string) (quiet : bool)
    : M (option Property) :=
  o <- the_space r ;;
  match props o !! name with
  | Some s => ret (Some (descriptor s))
  | None => if quiet then ret None else raise (KeyError name)
  end.

(** [ObjectProperty(v, rebind=True, allownone=True)]: a new descriptor. *)
Definition ObjectProperty (v : value) : M Property :=
  n <- gets prop_count ;;
  modify (set_prop_count (S n)) ;;;
  ret (MkProperty n v).

(** [apply_property] for one [name: prop] pair: link the descriptor to this
    dispatcher; the slot starts at the descriptor's default. *)
Definition apply_property (r : nat) (name : string) (p : Property) : M unit :=
  update_space r (set_props <[name := Slot p (defaultvalue p)]>).

(** The inherited [__setattr__]: a slot takes the value, any other name
    becomes a plain instance attribute. *)
Definition __setattr__ (r : nat) (name : string) (v : value) : M unit :=
  o <- the_space r ;;
  match props o !! name with
  | Some s => update_space r (set_props <[name := Slot (descriptor s) v]>)
  | None => update_space r (set_dict <[name := v]>)
  end.

(** Ordinary attribute lookup, before [__getattr__] is tried:
    slots, then the instance attributes, then the class. *)
Definition __getattribute__ (σ : world) (o : knspace_obj) (name : string)
    : option value :=
  match props o !! name with
  | Some s => Some (slot_value s)
  | None =>
    match dict o !! name with
    | Some v => Some v
    | None => if bool_decide (name ∈ class_attrs σ) then Some VOpaque else None
    end
  end.

(** [getattr(value, 'proxy_ref', value)]. *)
Definition proxy_ref (v : value) : M value := λ σ,
  match v with
  | VObj o =>
    match objs σ !! o with
    | Some ob => (σ, Ok (if proxied ob then VProxy o else VObj o))
    | None => (σ, Ok (VObj o))
    end
  | _ => (σ, Ok v)
  end.

End EventDispatcher.

(** ** class KNSpace(EventDispatcher)

    The instance attributes [parent] and [__has_applied], which [__init__]
    sets, are the fields [parent] and [has_applied] of the record, and
    [apply_property] and [clone] are called as the class defines them.  The
    source reads all four through the instance: this is the class as it
    behaves as long as no slot and no plain attribute of a namespace bears
    one of these names, or the name of the method [property] ([regular],
    below).  Statements that depend on it are made for such worlds and for
    other names. *)
Module KNSpace.

(** [__getattr__], reached when ordinary lookup fails; [getattr_rec] is
    the builtin [getattr] it calls on the parent. *)
Definition __getattr__ (getattr_rec : nat → string → result value)
    (self : knspace_obj) (name : string) : result value :=
  match parent self with
  | None => Raise (AttributeError name)
  | Some p => getattr_rec p name
  end.

(** The builtin [getattr(ns, name)] on a namespace. *)
Fixpoint getattr (fuel : nat) (σ : world) (r : nat) (name : string)
    : result value :=
  match fuel with
  | 0 => OutOfFuel
  | S fuel' =>
    match spaces σ !! r with
    | None => Raise ReferenceError
    | Some o =>
      match EventDispatcher.__getattribute__ σ o name with
      | Some v => Ok v
      | None => __getattr__ (getattr fuel' σ) o name
      end
    end
  end.

(** The builtin [hasattr]: an AttributeError of the lookup means no. *)
Definition hasattr (fuel : nat) (r : nat) (name : string) : M bool := λ σ,
  match getattr fuel σ r name with
  | Ok _ => (σ, Ok true)
  | Raise (AttributeError _) => (σ, Ok false)
  | Raise e => (σ, Raise e)
  | OutOfFuel => (σ, OutOfFuel)
  end.

Definition __setattr__ (fuel : nat) (self : nat) (name : string) (v : value)
    : M unit :=
  prop <- EventDispatcher.property self name true ;;
  o <- EventDispatcher.the_space self ;;
  let applied := has_applied o in
  match prop with
  | None =>
    b <- hasattr fuel self name ;;
    if b then EventDispatcher.__setattr__ self name v
    else
      v' <- EventDispatcher.proxy_ref v ;;
      p <- EventDispatcher.ObjectProperty v' ;;
      EventDispatcher.apply_property self name p ;;;
      EventDispatcher.update_space self (add_applied name)
  | Some p =>
    if bool_decide (name ∉ applied) then
      EventDispatcher.apply_property self name p ;;;
      EventDispatcher.update_space self (add_applied name) ;;;
      v' <- EventDispatcher.proxy_ref v ;;
      EventDispatcher.__setattr__ self name v'
    else
      v' <- EventDispatcher.proxy_ref v ;;
      EventDispatcher.__setattr__ self name v'
  end.

Definition property (self : nat) (name : string) (quiet : bool)
    : M Property :=
  prop <- EventDispatcher.property self name quiet ;;
  match prop with
  | Some p => ret p
  | None =>
    p <- EventDispatcher.ObjectProperty VNone ;;
    EventDispatcher.apply_property self name p ;;;
    EventDispatcher.update_space self (add_applied name) ;;;
    ret p
  end.

(** [KNSpace(parent=p)]: a new instance at a fresh address, after
    [__init__] has stored the parent and an empty applied set. *)
Definition __init__ (p : option nat) : M nat :=
  r <- gets (λ σ, fresh (dom (spaces σ))) ;;
  modify (set_spaces <[r := MkKNSpace p ∅ ∅ ∅]>) ;;;
  ret r.

Definition clone (self : nat) : M nat := __init__ (Some self).

End KNSpace.

(** ** class KNSpaceBehavior(object) *)
Module KNSpaceBehavior.

Definition the_object (r : nat) : M object := λ σ,
  match objs σ !! r with
  | Some o => (σ, Ok o)
  | None => (σ, Raise ReferenceError)
  end.

Definition the_mixin (self : nat) : M behavior :=
  o <- the_object self ;;
  match mixin o with
  | Some b => ret b
  | None => raise (AttributeError "_knspace")
  end.

Definition update_mixin (self : nat) (f : behavior → behavior) : M unit :=
  modify (set_objs (alter (λ o,
    match mixin o with Some b => set_mixin (f b) o | None => o end) self)).

(** [getattr(obj, parent_key, None)] on an object of the tree. *)
Definition getattr_link (p : nat) (parent_key : string) : M (option nat) :=
  o <- the_object p ;;
  ret (links o !! parent_key).

(** [_get_knspace], and the [while parent is not None] loop of its body.
    [getattr(parent, 'knspace', 0)] runs the getter of a parent that has
    the mixin and reads the plain attribute of one that has not; the
    answer [None] of the match below is the default [0]. *)
Fixpoint _get_knspace (fuel : nat) (self : nat) : M (option nat) :=
  match fuel with
  | 0 => out_of_fuel
  | S fuel' =>
    b <- the_mixin self ;;
    match _knspace b with
    | Some ns => ret (Some ns)
    | None =>
      let parent_key := knspace_key b in
      if negb (nonempty parent_key) then
        update_mixin self (with_last (Some knspace)) ;;;
        ret (Some knspace)
      else
        parent <- getattr_link self parent_key ;;
        _get_knspace_loop fuel' self parent_key parent
    end
  end
with _get_knspace_loop (fuel : nat) (self : nat) (parent_key : string)
    (parent : option nat) : M (option nat) :=
  match fuel with
  | 0 => out_of_fuel
  | S fuel' =>
    match parent with
    | None =>
      update_mixin self (with_last (Some knspace)) ;;;
      ret (Some knspace)
    | Some p =>
      po <- the_object p ;;
      parent_knspace <-
        match mixin po with
        | Some _ => (v <- _get_knspace fuel' p ;; ret (Some v))
        | None => ret (knspace_attr po)
        end ;;
      match parent_knspace with
      | Some v =>
        update_mixin self (with_last v) ;;;
        ret v
      | None =>
        next <- getattr_link p parent_key ;;
        _get_knspace_loop fuel' self parent_key next
      end
    end
  end.

Definition _get_name (self : nat) : M string :=
  b <- the_mixin self ;;
  ret (_name b).

(** [setattr(ns, name, v)] and [getattr(ns, name)] where [ns] was read
    from a field that may hold None. *)
Definition setattr (fuel : nat) (ns : option nat) (name : string) (v : value)
    : M unit :=
  match ns with
  | Some r => KNSpace.__setattr__ fuel r name v
  | None => raise (AttributeError name)
  end.

Definition getattr (fuel : nat) (ns : option nat) (name : string) : M value :=
  match ns with
  | Some r => λ σ, (σ, KNSpace.getattr fuel σ r name)
  | None => raise (AttributeError name)
  end.

(** [self == v]: the value is this object or its weak handle. *)
Definition eq_self (self : nat) (v : value) : bool :=
  match v with
  | VObj o | VProxy o => bool_decide (o = self)
  | _ => false
  end.

Definition __exchange_nspace (fuel : nat) (self : nat)
    (new_knspace : option nat) : M unit :=
  b <- the_mixin self ;;
  let last := last_knspace b in
  if bool_decide (last = new_knspace) then ret tt
  else
    update_mixin self (with_last new_knspace) ;;;
    name <- _get_name self ;;
    if negb (nonempty name) then ret tt
    else
      (if truthy new_knspace
       then setattr fuel new_knspace name (VObj self)
       else ret tt) ;;;
      v <- getattr fuel last name ;;
      if eq_self self v then setattr fuel last name VNone else ret tt.

(** The values the [knspace] property can be assigned. *)
Inductive knspace_arg :=
| ArgNone
| ArgClone              (* the string 'clone' *)
| ArgSpace (r : nat).

Definition _set_knspace (fuel : nat) (self : nat) (value : knspace_arg)
    : M unit :=
  knspace <- _get_knspace fuel self ;;
  name <- _get_name self ;;
  (if nonempty name && truthy knspace
   then setattr fuel knspace name VNone
   else ret tt) ;;;
  value' <-
    match value with
    | ArgClone =>
      match knspace with
      | Some r => (c <- KNSpace.clone r ;; ret (Some c))
      | None => raise ValueError_clone
      end
    | ArgNone => ret None
    | ArgSpace r => ret (Some r)
    end ;;
  update_mixin self (with_last value') ;;;
  update_mixin self (with_knspace value') ;;;
  if nonempty name then
    knspace <- _get_knspace fuel self ;;
    if negb (truthy knspace) then raise (ValueError_name name)
    else setattr fuel knspace name (VObj self)
  else ret tt.

(** [__init__(self, knspace=None)]: the host object is allocated with the
    defaults of the class, then the [knspace] property is assigned. *)
Definition __init__ (fuel : nat) (self : nat) (value : knspace_arg) : M unit :=
  _set_knspace fuel self value.

Definition _set_name (fuel : nat) (self : nat) (value : string) : M unit :=
  b <- the_mixin self ;;
  let old_name := _name b in
  knspace <- _get_knspace fuel self ;;
  (if nonempty old_name && truthy knspace
   then setattr fuel knspace old_name VNone
   else ret tt) ;;;
  update_mixin self (with_name value) ;;;
  if nonempty value then
    if truthy knspace then setattr fuel knspace value (VObj self)
    else raise (ValueError_name value)
  else ret tt.

End KNSpaceBehavior.

Import KNSpaceBehavior.

(** ** Vocabulary of the statements *)

(** What [getattr(v, 'proxy_ref', v)] yields in world [σ]. *)
Definition stored (σ : world) (v : value) : value :=
  match v with
  | VObj o =>
    match objs σ !! o with
    | Some ob => if proxied ob then VProxy o else VObj o
    | None => VObj o
    end
  | _ => v
  end.

(** World [σ] with namespace [r] replaced by [o] and [pc] descriptors built. *)
Definition put (r : nat) (o : knspace_obj) (pc : nat) (σ : world) : world :=
  World (class_attrs σ) (<[r := o]> (spaces σ)) (objs σ) pc.

Definition is_AttributeError (e : exn) : bool :=
  match e with AttributeError _ => true | _ => false end.

(** The four ways a store [setattr(ns, name, v)] succeeds, one per branch of
    [KNSpace.__setattr__]: the namespace [o] becomes [o'] and the descriptor
    count [pc]. *)
Inductive setattr_case (fuel : nat) (σ : world) (r : nat) (name : string) (v : value)
    (o : knspace_obj) : knspace_obj → nat → Prop :=
| case_plain w :
    props o !! name = None → KNSpace.getattr fuel σ r name = Ok w →
    setattr_case fuel σ r name v o (set_dict <[name := v]> o) (prop_count σ)
| case_create n' :
    props o !! name = None → KNSpace.getattr fuel σ r name = Raise (AttributeError n') →
    setattr_case fuel σ r name v o
      (add_applied name
        (set_props <[name := Slot (MkProperty (prop_count σ) (stored σ v)) (stored σ v)]> o))
      (S (prop_count σ))
| case_link s :
    props o !! name = Some s → name ∉ has_applied o →
    setattr_case fuel σ r name v o
      (add_applied name (set_props <[name := Slot (descriptor s) (stored σ v)]> o))
      (prop_count σ)
| case_store s :
    props o !! name = Some s → name ∈ has_applied o →
    setattr_case fuel σ r name v o
      (set_props <[name := Slot (descriptor s) (stored σ v)]> o) (prop_count σ).

(** Worlds that differ at most in what namespaces hold under [name]. *)
Definition same_but (name : string) (σ σ' : world) : Prop :=
  class_attrs σ' = class_attrs σ ∧
  ∀ r, match spaces σ !! r, spaces σ' !! r with
       | None, None => True
       | Some o, Some o' =>
         parent o' = parent o ∧
         ∀ n, n ≠ name → props o' !! n = props o !! n ∧ dict o' !! n = dict o !! n
       | _, _ => False
       end.

(** Objects, and worlds, that differ at most in the cached last namespace
    of entities. *)
Definition same_object (o o' : object) : Prop :=
  links o' = links o ∧ knspace_attr o' = knspace_attr o ∧ proxied o' = proxied o ∧
  match mixin o, mixin o' with
  | None, None => True
  | Some b, Some b' =>
    _knspace b' = _knspace b ∧ _name b' = _name b ∧ knspace_key b' = knspace_key b
  | _, _ => False
  end.

Definition cache_only (σ σ' : world) : Prop :=
  class_attrs σ' = class_attrs σ ∧ spaces σ' = spaces σ ∧
  prop_count σ' = prop_count σ ∧
  ∀ r, match objs σ !! r, objs σ' !! r with
       | None, None => True
       | Some o, Some o' => same_object o o'
       | _, _ => False
       end.

(** World [σ] after [self.__last_knspace = v]. *)
Definition cached (self : nat) (v : option nat) (σ : world) : world :=
  fst (update_mixin self (with_last v) σ).

(** [passes σ key cur l last]: starting at [cur], the walk along the
    attribute [key] passes the ancestors [l], none of which has the mixin
    or a [knspace] attribute, and then stands at [last]. *)
Inductive passes (σ : world) (key : string)
    : option nat → list nat → option nat → Prop :=
| passes_here cur : passes σ key cur [] cur
| passes_skip p po l last :
    objs σ !! p = Some po → mixin po = None → knspace_attr po = None →
    passes σ key (links po !! key) l last →
    passes σ key (Some p) (p :: l) last.


(** Every parent pointer leads to a namespace of the heap. *)
Definition closed (σ : world) : Prop :=
  ∀ r o p, spaces σ !! r = Some o → parent o = Some p → is_Some (spaces σ !! p).

(** [depth σ r n]: namespace [r] has [n] ancestors, the last without parent. *)
Inductive depth (σ : world) : nat → nat → Prop :=
| depth_root r o :
    spaces σ !! r = Some o → parent o = None → depth σ r 0
| depth_step r o p n :
    spaces σ !! r = Some o → parent o = Some p → depth σ p n →
    depth σ r (S n).

(** The two calls that can build a slot on a namespace. *)
Inductive ns_call :=
| CallSet (name : string) (v : value)
| CallProperty (name : string) (quiet : bool).

Definition call_name (c : ns_call) : string :=
  match c with CallSet n _ | CallProperty n _ => n end.

Definition run_call (fuel : nat) (r : nat) (c : ns_call) : M unit :=
  match c with
  | CallSet n v => KNSpace.__setattr__ fuel r n v
  | CallProperty n q => (_ <- KNSpace.property r n q ;; ret tt)
  end.

Definition ns_step (σ σ' : world) : Prop :=
  ∃ fuel r c res, run_call fuel r c σ = (σ', res).

(** The applied set only grows and every slot keeps its descriptor. *)
Definition slots_grow (o o' : knspace_obj) : Prop :=
  has_applied o ⊆ has_applied o' ∧
  ∀ n s, props o !! n = Some s →
         ∃ s', props o' !! n = Some s' ∧ descriptor s' = descriptor s.

Definition slots_kept (σ σ' : world) : Prop :=
  ∀ r o, spaces σ !! r = Some o →
         ∃ o', spaces σ' !! r = Some o' ∧ slots_grow o o'.

(** If the descriptor count moved, exactly one descriptor was built, for a
    name that had no slot, and it is now linked and recorded. *)
Definition builds (σ : world) (name : string) (o o' : knspace_obj) (pc : nat) : Prop :=
  pc ≠ prop_count σ →
  props o !! name = None ∧ pc = S (prop_count σ) ∧
  ∃ s', props o' !! name = Some s' ∧ prop_id (descriptor s') = prop_count σ ∧
        name ∈ has_applied o'.

(** ** Scenes used in the examples *)

(** Names the class KNSpace and its base bind. *)
Definition kivy_class_attrs : gset string :=
  {[ "parent"; "clone"; "property"; "_KNSpace__has_applied";
     "bind"; "unbind"; "apply_property"; "dispatch" ]}.

(** The world after the module is loaded: only the root namespace. *)
Definition startup (tree : gmap nat object) : world :=
  World kivy_class_attrs {[ knspace := MkKNSpace None ∅ ∅ ∅ ]} tree 0.

(** A freshly constructed entity, and an object without the mixin. *)
Definition widget (weak : bool) (links : gmap string nat) : object :=
  MkObject links None weak (Some (MkBehavior None "" "parent" None)).

Definition container (links : gmap string nat) (ns : option (option nat)) : object :=
  MkObject links ns false None.

Definition two_widgets : world :=
  startup (<[1 := widget false ∅]> (<[2 := widget false ∅]> ∅)).

Definition weak_widget : world := startup {[ 2 := widget true ∅ ]}.

Definition orphan : world :=
  startup (<[1 := widget false {[ "parent" := 3 ]}]>
           (<[3 := container ∅ (Some None)]> ∅)).

Definition nested : world :=
  startup (<[1 := widget false {[ "parent" := 3 ]}]>
           (<[2 := widget false ∅]>
           (<[3 := container {[ "parent" := 4 ]} None]>
           (<[4 := container ∅ None]> ∅)))).

Definition root_with_w : knspace_obj :=
  MkKNSpace None {[ "w" ]} {[ "w" := Slot (MkProperty 0 (VObj 7)) (VObj 7) ]} ∅.

Definition rooted : world :=
  World kivy_class_attrs {[ knspace := root_with_w ]} ∅ 1.

Definition shadow_scene : world :=
  World kivy_class_attrs
    (<[1 := MkKNSpace (Some knspace) ∅ ∅ ∅]> {[ knspace := root_with_w ]}) ∅ 1.

Definition moved : world :=
  World kivy_class_attrs
    (<[1 := MkKNSpace None ∅ ∅ ∅]>
     {[ knspace := MkKNSpace None {[ "w" ]}
                     {[ "w" := Slot (MkProperty 0 (VObj 1)) (VObj 1) ]} ∅ ]})
    (<[1 := MkObject ∅ None false
              (Some (MkBehavior None "w" "parent" (Some knspace)))]>
     (<[2 := widget false ∅]> ∅))
    1.

(** ** Calls on an entity, and what calls keep *)

(** The operations of the mixin on one entity. *)
Inductive entity_call :=
| GetKnspace
| SetKnspace (value : knspace_arg)
| SetName (value : string)
| Exchange (new_knspace : option nat)
| Init (knspace : knspace_arg).

Definition run_entity_call (fuel : nat) (self : nat) (c : entity_call) : M unit :=
  match c with
  | GetKnspace => (_ <- _get_knspace fuel self ;; ret tt)
  | SetKnspace value => _set_knspace fuel self value
  | SetName value => _set_name fuel self value
  | Exchange new_knspace => __exchange_nspace fuel self new_knspace
  | Init knspace => __init__ fuel self knspace
  end.

(** A computation keeps [P] when every outcome of it, also a failing one,
    leads from a world in [P] to a world in [P]. *)
Definition keeps {A} (P : world → Prop) (m : M A) : Prop :=
  ∀ σ σ' res, P σ → m σ = (σ', res) → P σ'.

(** Worlds whose trees agree but for the cached last namespaces. *)
Definition same_tree (σ τ : world) : Prop :=
  ∀ r, match objs σ !! r, objs τ !! r with
       | None, None => True
       | Some o, Some o' => same_object o o'
       | _, _ => False
       end.

(** The trees of [σ] and [σ'] agree but for caches and for the name and the
    explicit namespace of [self]. *)
Definition same_tree_but (self : nat) (σ σ' : world) : Prop :=
  ∀ r, match objs σ !! r, objs σ' !! r with
       | None, None => True
       | Some o, Some o' =>
         links o' = links o ∧ knspace_attr o' = knspace_attr o ∧
         proxied o' = proxied o ∧
         match mixin o, mixin o' with
         | None, None => True
         | Some b, Some b' =>
           knspace_key b' = knspace_key b ∧
           (r ≠ self → _knspace b' = _knspace b ∧ _name b' = _name b)
         | _, _ => False
         end
       | _, _ => False
       end.

(** Every namespace of [σ] is still there in [σ'], under the same parent,
    with its slots and applied names. *)
Definition ns_kept (σ σ' : world) : Prop :=
  ∀ r o, spaces σ !! r = Some o →
         ∃ o', spaces σ' !! r = Some o' ∧ parent o' = parent o ∧ slots_grow o o'.

Definition applied_have_slots (σ : world) : Prop :=
  ∀ r o n, spaces σ !! r = Some o → n ∈ has_applied o → is_Some (props o !! n).

(** One call of the module: on a namespace, a construction, or on an entity. *)
Inductive any_step (σ σ' : world) : Prop :=
| step_ns : ns_step σ σ' → any_step σ σ'
| step_new p r : KNSpace.__init__ p σ = (σ', Ok r) → any_step σ σ'
| step_entity fuel self c res :
    run_entity_call fuel self c σ = (σ', res) → any_step σ σ'.

(** The value [_set_knspace] stores for an argument, given the namespace
    the entity had and the world the clone is made in. *)
Definition assigned (value : knspace_arg) (old : option nat) (σ : world)
    : option (option nat * world) :=
  match value with
  | ArgNone => Some (None, σ)
  | ArgSpace r => Some (Some r, σ)
  | ArgClone =>
    match old with
    | Some N =>
      let C := fresh (dom (spaces σ)) in
      Some (Some C, set_spaces <[C := MkKNSpace (Some N) ∅ ∅ ∅]> σ)
    | None => None
    end
  end.

(** World [σ] after [self.__last_knspace = self._knspace = v]. *)
Definition assign (self : nat) (v : option nat) (σ : world) : world :=
  fst (update_mixin self (with_knspace v) (fst (update_mixin self (with_last v) σ))).

(** ** The names the module reads through the instance *)

(** The names under which the module, and a caller of its methods, reach
    through the instance of a namespace: [self.parent] (line 44),
    [self.__has_applied] (lines 23 and 56), [self.apply_property] (lines
    29, 35 and 55), [knspace.clone] (line 122) and the method [property]
    itself. *)
Definition self_attrs : gset string :=
  {[ "parent"; "_KNSpace__has_applied"; "apply_property"; "clone"; "property" ]}.

(** A namespace on which no slot and no plain attribute bears one of these
    names: what the instance reads is then what the record holds. *)
Definition intact (o : knspace_obj) : Prop :=
  dom (props o) ## self_attrs ∧ dom (dict o) ## self_attrs.

Definition regular (σ : world) : Prop :=
  map_Forall (λ _ o, intact o) (spaces σ).

#[global] Instance intact_dec o : Decision (intact o).
Proof. unfold intact. apply _. Defined.

#[global] Instance regular_dec σ : Decision (regular σ).
Proof. unfold regular. apply _. Defined.

(** A call on a namespace under a name that is none of [self_attrs]. *)
Definition plain_ns_step (σ σ' : world) : Prop :=
  ∃ fuel r c res, (call_name c ∉ self_attrs) ∧ run_call fuel r c σ = (σ', res).

(** A call on a namespace that is no call on [C] under [name]. *)
Definition step_off (C : nat) (name : string) (σ σ' : world) : Prop :=
  ∃ fuel r c res, (r ≠ C ∨ call_name c ≠ name) ∧ run_call fuel r c σ = (σ', res).

(** Entity [e], if it is an entity of the tree, is named [n]. *)
Definition name_is (e : nat) (n : string) (σ : world) : Prop :=
  ∀ ob b, objs σ !! e = Some ob → mixin ob = Some b → _name b = n.

(** [P], for a world in which [e] is named [n]. *)
Definition named (P : world → Prop) (e : nat) (n : string) (σ : world) : Prop :=
  P σ ∧ name_is e n σ.

(** An operation on an entity whose name, and whose new name if it is given
    one, is none of [self_attrs]. *)
Definition plain_entity_call (σ : world) (self : nat) (c : entity_call) : Prop :=
  (∀ ob b, objs σ !! self = Some ob → mixin ob = Some b → _name b ∉ self_attrs) ∧
  match c with SetName value => value ∉ self_attrs | _ => True end.

(** One call of the module that stores under none of [self_attrs]. *)
Inductive plain_step (σ σ' : world) : Prop :=
| plain_ns : plain_ns_step σ σ' → plain_step σ σ'
| plain_new p r : KNSpace.__init__ p σ = (σ', Ok r) → plain_step σ σ'
| plain_entity fuel self c res :
    plain_entity_call σ self c →
    run_entity_call fuel self c σ = (σ', res) → plain_step σ σ'.

Lemma alter_as_insert {A} (f : A → A) (m : gmap nat A) i x :
  m !! i = Some x → alter f i m = <[i := f x]> m.
Proof.
  intros H. apply map_eq. intros j. rewrite lookup_alter, lookup_insert.
  repeat case_decide; subst; try congruence. by rewrite H.
Qed.

(** ** Stores and lookups on a namespace *)

Lemma spaces_put r o pc σ : spaces (put r o pc σ) = <[r := o]> (spaces σ).
Proof. done. Qed.

Lemma lookup_put r o pc σ : spaces (put r o pc σ) !! r = Some o.
Proof. apply lookup_insert_eq. Qed.

Lemma lookup_put_ne r r' o pc σ : r ≠ r' → spaces (put r o pc σ) !! r' = spaces σ !! r'.
Proof. intros. by apply lookup_insert_ne. Qed.

Lemma put_put r o1 o2 pc1 pc2 σ : put r o2 pc2 (put r o1 pc1 σ) = put r o2 pc2 σ.
Proof. unfold put; simpl. by rewrite insert_insert_eq. Qed.

Lemma the_space_some r o σ :
  spaces σ !! r = Some o → EventDispatcher.the_space r σ = (σ, Ok o).
Proof. intros H. unfold EventDispatcher.the_space. by rewrite H. Qed.

Lemma update_space_some r o f σ :
  spaces σ !! r = Some o →
  EventDispatcher.update_space r f σ = (put r (f o) (prop_count σ) σ, Ok tt).
Proof.
  intros H. unfold EventDispatcher.update_space, modify, set_spaces, put.
  by rewrite (alter_as_insert _ _ _ _ H).
Qed.

Lemma property_some r o name quiet s σ :
  spaces σ !! r = Some o → props o !! name = Some s →
  EventDispatcher.property r name quiet σ = (σ, Ok (Some (descriptor s))).
Proof.
  intros H Hp. unfold EventDispatcher.property, bind.
  rewrite (the_space_some _ _ _ H), Hp. done.
Qed.

Lemma property_none r o name quiet σ :
  spaces σ !! r = Some o → props o !! name = None →
  EventDispatcher.property r name quiet σ
  = (σ, if quiet then Ok None else Raise (KeyError name)).
Proof.
  intros H Hp. unfold EventDispatcher.property, bind.
  rewrite (the_space_some _ _ _ H), Hp. by destruct quiet.
Qed.

Lemma base_setattr_slot r o name v s σ :
  spaces σ !! r = Some o → props o !! name = Some s →
  EventDispatcher.__setattr__ r name v σ
  = (put r (set_props <[name := Slot (descriptor s) v]> o) (prop_count σ) σ, Ok tt).
Proof.
  intros H Hp. unfold EventDispatcher.__setattr__, bind.
  rewrite (the_space_some _ _ _ H), Hp. by apply update_space_some.
Qed.

Lemma base_setattr_dict r o name v σ :
  spaces σ !! r = Some o → props o !! name = None →
  EventDispatcher.__setattr__ r name v σ
  = (put r (set_dict <[name := v]> o) (prop_count σ) σ, Ok tt).
Proof.
  intros H Hp. unfold EventDispatcher.__setattr__, bind.
  rewrite (the_space_some _ _ _ H), Hp. by apply update_space_some.
Qed.

Lemma apply_property_some r o name p σ :
  spaces σ !! r = Some o →
  EventDispatcher.apply_property r name p σ
  = (put r (set_props <[name := Slot p (defaultvalue p)]> o) (prop_count σ) σ, Ok tt).
Proof. intros H. by apply update_space_some. Qed.

Lemma proxy_ref_stored v σ : EventDispatcher.proxy_ref v σ = (σ, Ok (stored σ v)).
Proof.
  unfold EventDispatcher.proxy_ref, stored. destruct v; try done.
  by destruct (objs σ !! o).
Qed.

Lemma stored_put r o pc σ v : stored (put r o pc σ) v = stored σ v.
Proof. done. Qed.

Lemma hasattr_getattr fuel r name σ :
  KNSpace.hasattr fuel r name σ =
  (σ, match KNSpace.getattr fuel σ r name with
      | Ok _ => Ok true
      | Raise (AttributeError _) => Ok false
      | Raise e => Raise e
      | OutOfFuel => OutOfFuel
      end).
Proof.
  unfold KNSpace.hasattr. destruct (KNSpace.getattr fuel σ r name) as [|[]|]; done.
Qed.

Lemma setattr_plain fuel σ r o name v w :
  spaces σ !! r = Some o → props o !! name = None →
  KNSpace.getattr fuel σ r name = Ok w →
  KNSpace.__setattr__ fuel r name v σ
  = (put r (set_dict <[name := v]> o) (prop_count σ) σ, Ok tt).
Proof.
  intros Hr Hp Hg. unfold KNSpace.__setattr__, bind.
  rewrite (property_none _ _ _ _ _ Hr Hp), (the_space_some _ _ _ Hr).
  rewrite hasattr_getattr, Hg. by apply base_setattr_dict.
Qed.

Lemma setattr_create fuel σ r o name v n' :
  spaces σ !! r = Some o → props o !! name = None →
  KNSpace.getattr fuel σ r name = Raise (AttributeError n') →
  KNSpace.__setattr__ fuel r name v σ
  = (put r (add_applied name
        (set_props <[name := Slot (MkProperty (prop_count σ) (stored σ v)) (stored σ v)]> o))
       (S (prop_count σ)) σ, Ok tt).
Proof.
  intros Hr Hp Hg. unfold KNSpace.__setattr__, bind.
  rewrite (property_none _ _ _ _ _ Hr Hp), (the_space_some _ _ _ Hr).
  rewrite hasattr_getattr, Hg, proxy_ref_stored.
  unfold EventDispatcher.ObjectProperty, bind, gets, modify, ret.
  erewrite apply_property_some by exact Hr.
  erewrite update_space_some by apply lookup_put.
  by rewrite put_put.
Qed.

Lemma setattr_fail fuel σ r o name v :
  spaces σ !! r = Some o → props o !! name = None →
  (∀ w, KNSpace.getattr fuel σ r name ≠ Ok w) →
  (∀ n', KNSpace.getattr fuel σ r name ≠ Raise (AttributeError n')) →
  ∃ res, KNSpace.__setattr__ fuel r name v σ = (σ, res) ∧ res ≠ Ok tt.
Proof.
  intros Hr Hp Hg1 Hg2. unfold KNSpace.__setattr__, bind.
  rewrite (property_none _ _ _ _ _ Hr Hp), (the_space_some _ _ _ Hr).
  rewrite hasattr_getattr.
  destruct (KNSpace.getattr fuel σ r name) as [w|e|] eqn:E.
  - by destruct (Hg1 w).
  - destruct e; simpl; try (eexists; split; [reflexivity|done]). by destruct (Hg2 name0).
  - eexists; split; [reflexivity|done].
Qed.

Lemma setattr_link fuel σ r o name v s :
  spaces σ !! r = Some o → props o !! name = Some s → name ∉ has_applied o →
  KNSpace.__setattr__ fuel r name v σ
  = (put r (add_applied name (set_props <[name := Slot (descriptor s) (stored σ v)]> o))
       (prop_count σ) σ, Ok tt).
Proof.
  intros Hr Hp Hn. unfold KNSpace.__setattr__, bind.
  rewrite (property_some _ _ _ _ _ _ Hr Hp), (the_space_some _ _ _ Hr).
  rewrite bool_decide_eq_true_2 by done.
  erewrite apply_property_some by exact Hr.
  erewrite update_space_some by apply lookup_put.
  rewrite put_put, proxy_ref_stored.
  erewrite base_setattr_slot; [| apply lookup_put | apply lookup_insert_eq ].
  rewrite put_put. simpl. unfold add_applied, set_props; simpl.
  by rewrite insert_insert_eq.
Qed.

Lemma setattr_store fuel σ r o name v s :
  spaces σ !! r = Some o → props o !! name = Some s → name ∈ has_applied o →
  KNSpace.__setattr__ fuel r name v σ
  = (put r (set_props <[name := Slot (descriptor s) (stored σ v)]> o) (prop_count σ) σ, Ok tt).
Proof.
  intros Hr Hp Hn. unfold KNSpace.__setattr__, bind.
  rewrite (property_some _ _ _ _ _ _ Hr Hp), (the_space_some _ _ _ Hr).
  rewrite bool_decide_eq_false_2 by (intros H; by apply H).
  rewrite proxy_ref_stored. by erewrite base_setattr_slot.
Qed.

Lemma setattr_dangling fuel σ r name v :
  spaces σ !! r = None →
  KNSpace.__setattr__ fuel r name v σ = (σ, Raise ReferenceError).
Proof.
  intros Hr. unfold KNSpace.__setattr__, EventDispatcher.property, EventDispatcher.the_space, bind.
  by rewrite Hr.
Qed.

Lemma getattr_local fuel σ r o name v :
  spaces σ !! r = Some o →
  EventDispatcher.__getattribute__ σ o name = Some v →
  KNSpace.getattr (S fuel) σ r name = Ok v.
Proof. intros Hr Hl. simpl. by rewrite Hr, Hl. Qed.

Lemma getattr_delegate fuel σ r o p name :
  spaces σ !! r = Some o →
  EventDispatcher.__getattribute__ σ o name = None →
  parent o = Some p →
  KNSpace.getattr (S fuel) σ r name = KNSpace.getattr fuel σ p name.
Proof. intros Hr Hl Hp. simpl. rewrite Hr, Hl. unfold KNSpace.__getattr__. by rewrite Hp. Qed.

Lemma getattr_unresolved fuel σ r o name :
  spaces σ !! r = Some o →
  EventDispatcher.__getattribute__ σ o name = None →
  parent o = None →
  KNSpace.getattr (S fuel) σ r name = Raise (AttributeError name).
Proof. intros Hr Hl Hp. simpl. rewrite Hr, Hl. unfold KNSpace.__getattr__. by rewrite Hp. Qed.


Lemma setattr_inv fuel σ r name v σ' res :
  KNSpace.__setattr__ fuel r name v σ = (σ', res) →
  (res ≠ Ok tt ∧ σ' = σ) ∨
  (res = Ok tt ∧ ∃ o o' pc, spaces σ !! r = Some o ∧ σ' = put r o' pc σ ∧
     setattr_case fuel σ r name v o o' pc).
Proof.
  intros H. destruct (spaces σ !! r) as [o|] eqn:Hr.
  2:{ rewrite setattr_dangling in H by done. left. by simplify_eq. }
  destruct (props o !! name) as [s|] eqn:Hp.
  - destruct (decide (name ∈ has_applied o)) as [Hin|Hin].
    + rewrite (setattr_store _ _ _ _ _ _ _ Hr Hp Hin) in H. simplify_eq.
      right. split; [done|]. eexists _, _, _. eauto using setattr_case.
    + rewrite (setattr_link _ _ _ _ _ _ _ Hr Hp Hin) in H. simplify_eq.
      right. split; [done|]. eexists _, _, _. eauto using setattr_case.
  - destruct (KNSpace.getattr fuel σ r name) as [w|e|] eqn:Hg.
    + rewrite (setattr_plain _ _ _ _ _ _ _ Hr Hp Hg) in H. simplify_eq.
      right. split; [done|]. eexists _, _, _. eauto using setattr_case.
    + destruct (decide (is_AttributeError e = true)) as [He|He].
      * destruct e; try done.
        rewrite (setattr_create _ _ _ _ _ _ _ Hr Hp Hg) in H. simplify_eq.
        right. split; [done|]. eexists _, _, _. eauto using setattr_case.
      * destruct (setattr_fail fuel σ r o name v Hr Hp) as (res' & E & Hres).
        { intros w. by rewrite Hg. }
        { intros n' Hq. apply He. rewrite Hg in Hq. by simplify_eq. }
        rewrite E in H. left. by simplify_eq.
    + destruct (setattr_fail fuel σ r o name v Hr Hp) as (res' & E & Hres).
      { intros w. by rewrite Hg. } { intros n'. by rewrite Hg. }
      rewrite E in H. left. by simplify_eq.
Qed.

Section setattr_case_facts.

Context {fuel : nat} {σ : world} {r : nat} {name : string} {v : value}
  {o o' : knspace_obj} {pc : nat}.

Hypothesis Hcase : setattr_case fuel σ r name v o o' pc.

Lemma case_parent : parent o' = parent o.
Proof. by destruct Hcase. Qed.

Lemma case_applied : has_applied o ⊆ has_applied o'.
Proof. destruct Hcase; simpl; set_solver. Qed.

Lemma case_props_other n : n ≠ name → props o' !! n = props o !! n.
Proof. intros. destruct Hcase; simpl; by rewrite ?lookup_insert_ne. Qed.

Lemma case_dict_other n : n ≠ name → dict o' !! n = dict o !! n.
Proof. intros. destruct Hcase; simpl; by rewrite ?lookup_insert_ne. Qed.

Lemma case_descriptor n s :
  props o !! n = Some s →
  ∃ s', props o' !! n = Some s' ∧ descriptor s' = descriptor s.
Proof.
  intros Hs. destruct (decide (n = name)) as [->|Hne].
  - destruct Hcase; simplify_eq; simpl; rewrite ?lookup_insert_eq; eauto.
  - exists s. by rewrite case_props_other.
Qed.

Lemma case_count : prop_count σ ≤ pc.
Proof. destruct Hcase; lia. Qed.

Lemma case_count_new : pc ≠ prop_count σ → props o !! name = None.
Proof. destruct Hcase; try done; lia. Qed.

Lemma case_lookup τ :
  ∃ v', EventDispatcher.__getattribute__ τ o' name = Some v' ∧
        (v' = v ∨ v' = stored σ v).
Proof.
  unfold EventDispatcher.__getattribute__.
  destruct Hcase; simpl; rewrite ?lookup_insert_eq; simpl; eauto.
  rewrite H. eauto.
Qed.

End setattr_case_facts.

Lemma getattr_same_but name σ σ' fuel r n :
  same_but name σ σ' → n ≠ name →
  KNSpace.getattr fuel σ' r n = KNSpace.getattr fuel σ r n.
Proof.
  intros [Hc Hs] Hn. revert r. induction fuel as [|fuel IH]; intros r; [done|].
  simpl. specialize (Hs r).
  destruct (spaces σ !! r) as [o|], (spaces σ' !! r) as [o'|]; try done.
  destruct Hs as [Hp Hs]. destruct (Hs n Hn) as [E1 E2].
  unfold EventDispatcher.__getattribute__, KNSpace.__getattr__.
  rewrite E1, E2, Hc, Hp. destruct (props o !! n); [done|].
  destruct (dict o !! n); [done|]. case_bool_decide; [done|].
  destruct (parent o); [apply IH | done].
Qed.

Lemma same_but_put fuel name σ r v o o' pc :
  spaces σ !! r = Some o → setattr_case fuel σ r name v o o' pc →
  same_but name σ (put r o' pc σ).
Proof.
  intros Hr Hc. split; [done|]. intros r'.
  destruct (decide (r' = r)) as [->|Hne].
  - rewrite Hr, lookup_put. split; [by eapply case_parent|].
    intros n Hn. split; [by eapply case_props_other | by eapply case_dict_other].
  - rewrite lookup_put_ne by done. destruct (spaces σ !! r'); done.
Qed.

Lemma getattr_after_setattr fuel fuel' σ σ' r name v :
  KNSpace.__setattr__ fuel r name v σ = (σ', Ok tt) →
  ∃ v', KNSpace.getattr (S fuel') σ' r name = Ok v' ∧ (v' = v ∨ v' = stored σ v).
Proof.
  intros H. apply setattr_inv in H as [[? _]|(_ & o & o' & pc & Hr & -> & Hc)]; [done|].
  destruct (case_lookup Hc (put r o' pc σ)) as (v' & Hl & Hv).
  exists v'. split; [|done]. eapply getattr_local; [apply lookup_put | done].
Qed.

Lemma getattr_other_after_setattr fuel fuel' σ σ' res r r' name n v :
  KNSpace.__setattr__ fuel r name v σ = (σ', res) → n ≠ name →
  KNSpace.getattr fuel' σ' r' n = KNSpace.getattr fuel' σ r' n.
Proof.
  intros H Hn. apply setattr_inv in H as [[_ ->]|(_ & o & o' & pc & Hr & -> & Hc)]; [done|].
  eapply getattr_same_but; [by eapply same_but_put | done].
Qed.

Lemma property_existing r o name quiet s σ :
  spaces σ !! r = Some o → props o !! name = Some s →
  KNSpace.property r name quiet σ = (σ, Ok (descriptor s)).
Proof.
  intros Hr Hp. unfold KNSpace.property, bind. by rewrite (property_some _ _ _ _ _ _ Hr Hp).
Qed.

Lemma property_create r o name σ :
  spaces σ !! r = Some o → props o !! name = None →
  KNSpace.property r name true σ
  = (put r (add_applied name
       (set_props <[name := Slot (MkProperty (prop_count σ) VNone) VNone]> o))
       (S (prop_count σ)) σ,
     Ok (MkProperty (prop_count σ) VNone)).
Proof.
  intros Hr Hp. unfold KNSpace.property, bind.
  rewrite (property_none _ _ _ _ _ Hr Hp).
  unfold EventDispatcher.ObjectProperty, bind, gets, modify, ret.
  erewrite apply_property_some by exact Hr.
  erewrite update_space_some by apply lookup_put.
  by rewrite put_put.
Qed.

Lemma property_raise r o name σ :
  spaces σ !! r = Some o → props o !! name = None →
  KNSpace.property r name false σ = (σ, Raise (KeyError name)).
Proof.
  intros Hr Hp. unfold KNSpace.property, bind. by rewrite (property_none _ _ _ _ _ Hr Hp).
Qed.

Lemma property_dangling r name quiet σ :
  spaces σ !! r = None →
  KNSpace.property r name quiet σ = (σ, Raise ReferenceError).
Proof.
  intros Hr. unfold KNSpace.property, EventDispatcher.property, EventDispatcher.the_space, bind.
  by rewrite Hr.
Qed.

Lemma clone_spec r σ :
  let c := fresh (dom (spaces σ)) in
  KNSpace.clone r σ = (set_spaces <[c := MkKNSpace (Some r) ∅ ∅ ∅]> σ, Ok c)
  ∧ spaces σ !! c = None.
Proof.
  simpl. split; [done|]. apply not_elem_of_dom, is_fresh.
Qed.

(** ** Namespace resolution of an entity *)

Lemma bind_inv {A B} (m : M A) (k : A → M B) σ σ' res :
  bind m k σ = (σ', res) →
  (∃ a σ1, m σ = (σ1, Ok a) ∧ k a σ1 = (σ', res)) ∨
  (∃ e, m σ = (σ', Raise e) ∧ res = Raise e) ∨
  (m σ = (σ', OutOfFuel) ∧ res = OutOfFuel).
Proof.
  unfold bind. destruct (m σ) as [σ1 [a|e|]]; intros H.
  - left. eauto.
  - right. left. simplify_eq. eauto.
  - right. right. by simplify_eq.
Qed.

Lemma bind_ok_inv {A B} (m : M A) (k : A → M B) σ σ' b :
  bind m k σ = (σ', Ok b) →
  ∃ a σ1, m σ = (σ1, Ok a) ∧ k a σ1 = (σ', Ok b).
Proof.
  intros H. apply bind_inv in H as [H|[(e & _ & ?)|[_ ?]]]; done.
Qed.

Lemma same_object_refl o : same_object o o.
Proof. unfold same_object. by destruct (mixin o). Qed.

Lemma same_object_trans o1 o2 o3 :
  same_object o1 o2 → same_object o2 o3 → same_object o1 o3.
Proof.
  unfold same_object. intros (?&?&?&Ha) (?&?&?&Hb).
  repeat split; try congruence.
  destruct (mixin o1), (mixin o2), (mixin o3); try done.
  destruct Ha as (?&?&?), Hb as (?&?&?). repeat split; congruence.
Qed.

Lemma cache_only_refl σ : cache_only σ σ.
Proof.
  repeat split. intros r. destruct (objs σ !! r); [apply same_object_refl | done].
Qed.

Lemma cache_only_trans σ1 σ2 σ3 :
  cache_only σ1 σ2 → cache_only σ2 σ3 → cache_only σ1 σ3.
Proof.
  intros (?&?&?&Ha) (?&?&?&Hb). repeat split; try congruence.
  intros r. specialize (Ha r). specialize (Hb r).
  destruct (objs σ1 !! r), (objs σ2 !! r), (objs σ3 !! r); try done.
  by eapply same_object_trans.
Qed.

Lemma update_mixin_last self v σ :
  cache_only σ (fst (update_mixin self (with_last v) σ)).
Proof.
  unfold update_mixin, modify, set_objs. simpl. repeat split. simpl.
  intros r. rewrite lookup_alter. case_decide as Hd; [subst r|].
  - destruct (objs σ !! self) as [o|]; [|done]. simpl.
    unfold same_object. destruct (mixin o) eqn:E; simpl; rewrite ?E; done.
  - destruct (objs σ !! r); [apply same_object_refl | done].
Qed.

Lemma update_mixin_eq self f σ :
  update_mixin self f σ = (fst (update_mixin self f σ), Ok tt).
Proof. done. Qed.

Lemma the_object_inv r σ σ' res :
  the_object r σ = (σ', res) →
  σ' = σ ∧ match res with
           | Ok o => objs σ !! r = Some o
           | Raise _ => objs σ !! r = None
           | OutOfFuel => False
           end.
Proof. unfold the_object. destruct (objs σ !! r); intros; by simplify_eq. Qed.

Lemma the_mixin_inv r σ σ' res :
  the_mixin r σ = (σ', res) →
  σ' = σ ∧ match res with
           | Ok b => ∃ o, objs σ !! r = Some o ∧ mixin o = Some b
           | _ => True
           end.
Proof.
  unfold the_mixin, bind, the_object, ret, raise.
  destruct (objs σ !! r) as [o|]; [|intros; by simplify_eq].
  destruct (mixin o) eqn:E; intros; simplify_eq; split; eauto.
Qed.

Lemma the_mixin_some r σ o b :
  objs σ !! r = Some o → mixin o = Some b → the_mixin r σ = (σ, Ok b).
Proof. intros H E. unfold the_mixin, bind, the_object, ret. by rewrite H, E. Qed.

Lemma getattr_link_inv p key σ σ' res :
  getattr_link p key σ = (σ', res) → σ' = σ.
Proof.
  unfold getattr_link, bind, the_object, ret. destruct (objs σ !! p); intros; by simplify_eq.
Qed.

Lemma getter_cache_only fuel :
  (∀ self σ σ' res, _get_knspace fuel self σ = (σ', res) → cache_only σ σ') ∧
  (∀ self key cur σ σ' res,
     _get_knspace_loop fuel self key cur σ = (σ', res) → cache_only σ σ').
Proof.
  induction fuel as [|fuel [IH1 IH2]].
  { split; intros; simpl in *; unfold out_of_fuel in *; simplify_eq; apply cache_only_refl. }
  split.
  - intros self σ σ' res H. simpl in H.
    apply bind_inv in H as [(b & σ1 & Hm & H)|[(e & Hm & _)|[Hm _]]];
      apply the_mixin_inv in Hm as [-> _]; try apply cache_only_refl.
    destruct (_knspace b).
    { unfold ret in H. simplify_eq. apply cache_only_refl. }
    destruct (negb (nonempty (knspace_key b))).
    { unfold bind, ret in H. simpl in H. simplify_eq. apply update_mixin_last. }
    apply bind_inv in H as [(p & σ2 & Hl & H)|[(e & Hl & _)|[Hl _]]];
      apply getattr_link_inv in Hl as ->; try apply cache_only_refl.
    eapply IH2; eassumption.
  - intros self key cur σ σ' res H. simpl in H. destruct cur as [p|].
    2:{ unfold bind, ret in H. simpl in H. simplify_eq. apply update_mixin_last. }
    apply bind_inv in H as [(po & σ1 & Ho & H)|[(e & Ho & _)|[Ho _]]];
      apply the_object_inv in Ho as [-> _]; try apply cache_only_refl.
    apply bind_inv in H as [(pk & σ2 & Hk & H)|[(e & Hk & _)|[Hk _]]].
    + assert (cache_only σ σ2) as Hc.
      { destruct (mixin po).
        - apply bind_inv in Hk as [(v & σ3 & Hg & Hk)|[(e & Hg & _)|[Hg _]]];
            try (eapply IH1; eassumption).
          unfold ret in Hk. simplify_eq. eapply IH1; eassumption.
        - unfold ret in Hk. simplify_eq. apply cache_only_refl. }
      eapply cache_only_trans; [exact Hc|].
      destruct pk as [v|].
      * unfold bind, ret in H. simpl in H. simplify_eq. apply update_mixin_last.
      * apply bind_inv in H as [(nx & σ3 & Hl & H)|[(e & Hl & _)|[Hl _]]];
          apply getattr_link_inv in Hl as ->; try apply cache_only_refl.
        eapply IH2; eassumption.
    + destruct (mixin po); [|unfold ret in Hk; simplify_eq].
      apply bind_inv in Hk as [(v & σ3 & Hg & Hk)|[(e' & Hg & _)|[Hg _]]];
        try (eapply IH1; eassumption).
      all: try (unfold ret in Hk; simplify_eq).
    + destruct (mixin po); [|unfold ret in Hk; simplify_eq].
      apply bind_inv in Hk as [(v & σ3 & Hg & Hk)|[(e' & Hg & _)|[Hg _]]];
        try (eapply IH1; eassumption).
      all: try (unfold ret in Hk; simplify_eq).
Qed.

Lemma the_object_some r o σ : objs σ !! r = Some o → the_object r σ = (σ, Ok o).
Proof. intros H. unfold the_object. by rewrite H. Qed.

Lemma getattr_link_some p o key σ :
  objs σ !! p = Some o → getattr_link p key σ = (σ, Ok (links o !! key)).
Proof. intros H. unfold getattr_link, bind, ret. by rewrite (the_object_some _ _ _ H). Qed.

Lemma loop_exhausted fuel self key σ :
  _get_knspace_loop (S fuel) self key None σ
  = (cached self (Some knspace) σ, Ok (Some knspace)).
Proof. done. Qed.

Lemma loop_exposed fuel self key p po v σ :
  objs σ !! p = Some po → mixin po = None → knspace_attr po = Some v →
  _get_knspace_loop (S fuel) self key (Some p) σ = (cached self v σ, Ok v).
Proof.
  intros Hp Hm Hk. simpl. unfold bind. rewrite (the_object_some _ _ _ Hp), Hm.
  unfold ret. by rewrite Hk.
Qed.

Lemma loop_skip fuel self key p po σ :
  objs σ !! p = Some po → mixin po = None → knspace_attr po = None →
  _get_knspace_loop (S fuel) self key (Some p) σ
  = _get_knspace_loop fuel self key (links po !! key) σ.
Proof.
  intros Hp Hm Hk. simpl. unfold bind. rewrite (the_object_some _ _ _ Hp), Hm.
  unfold ret. rewrite Hk. by rewrite (getattr_link_some _ _ _ _ Hp).
Qed.

Lemma loop_mixin fuel self key p po bp v σ σ' :
  objs σ !! p = Some po → mixin po = Some bp →
  _get_knspace fuel p σ = (σ', Ok v) →
  _get_knspace_loop (S fuel) self key (Some p) σ = (cached self v σ', Ok v).
Proof.
  intros Hp Hm Hg. simpl. unfold bind. rewrite (the_object_some _ _ _ Hp), Hm.
  rewrite Hg. done.
Qed.

Lemma loop_passes σ key cur l last :
  passes σ key cur l last →
  ∀ fuel self,
    _get_knspace_loop (length l + fuel) self key cur σ
    = _get_knspace_loop fuel self key last σ.
Proof.
  induction 1 as [|p po l last Hp Hm Hk _ IH]; intros fuel self; [done|].
  simpl length. rewrite Nat.add_succ_l. rewrite (loop_skip _ _ _ _ _ _ Hp Hm Hk). apply IH.
Qed.

Lemma getter_explicit fuel self ob b ns σ :
  objs σ !! self = Some ob → mixin ob = Some b → _knspace b = Some ns →
  _get_knspace (S fuel) self σ = (σ, Ok (Some ns)).
Proof.
  intros Ho Hm Hk. simpl. unfold bind. rewrite (the_mixin_some _ _ _ _ Ho Hm). by rewrite Hk.
Qed.

Lemma getter_nokey fuel self ob b σ :
  objs σ !! self = Some ob → mixin ob = Some b → _knspace b = None →
  nonempty (knspace_key b) = false →
  _get_knspace (S fuel) self σ = (cached self (Some knspace) σ, Ok (Some knspace)).
Proof.
  intros Ho Hm Hk Hn. simpl. unfold bind. rewrite (the_mixin_some _ _ _ _ Ho Hm).
  rewrite Hk, Hn. done.
Qed.

Lemma getter_walk fuel self ob b σ :
  objs σ !! self = Some ob → mixin ob = Some b → _knspace b = None →
  nonempty (knspace_key b) = true →
  _get_knspace (S fuel) self σ
  = _get_knspace_loop fuel self (knspace_key b) (links ob !! knspace_key b) σ.
Proof.
  intros Ho Hm Hk Hn. simpl. unfold bind. rewrite (the_mixin_some _ _ _ _ Ho Hm).
  rewrite Hk, Hn. simpl. by rewrite (getattr_link_some _ _ _ _ Ho).
Qed.

Lemma resolve_tri_state σ self ob b l last :
  objs σ !! self = Some ob → mixin ob = Some b →
  _knspace b = None → nonempty (knspace_key b) = true →
  passes σ (knspace_key b) (links ob !! knspace_key b) l last →
  ∀ fuel,
    (last = None →
       _get_knspace (S (length l + S fuel)) self σ
       = (cached self (Some knspace) σ, Ok (Some knspace))) ∧
    (∀ p po v, last = Some p → objs σ !! p = Some po → mixin po = None →
       knspace_attr po = Some v →
       _get_knspace (S (length l + S fuel)) self σ = (cached self v σ, Ok v)) ∧
    (∀ p po bp v σ', last = Some p → objs σ !! p = Some po → mixin po = Some bp →
       _get_knspace fuel p σ = (σ', Ok v) →
       _get_knspace (S (length l + S fuel)) self σ = (cached self v σ', Ok v)).
Proof.
  intros Ho Hm Hk Hn Hp fuel.
  rewrite (getter_walk _ _ _ _ _ Ho Hm Hk Hn), (loop_passes _ _ _ _ _ Hp).
  split; [|split].
  - intros ->. apply loop_exhausted.
  - intros p po v -> ???. by eapply loop_exposed.
  - intros p po bp v σ' -> ???. by eapply loop_mixin.
Qed.

(** ** Naming an entity *)

Lemma passes_cache_only σ σ' key cur l last :
  cache_only σ σ' → passes σ key cur l last → passes σ' key cur l last.
Proof.
  intros (_ & _ & _ & Hc). induction 1 as [|p po l last Hp Hm Hk _ IH]; [constructor|].
  specialize (Hc p). rewrite Hp in Hc.
  destruct (objs σ' !! p) as [po'|] eqn:Hp'; [|done].
  destruct Hc as (Hl & Ha & _ & Hx). rewrite Hm in Hx.
  destruct (mixin po') eqn:Hm'; [done|].
  eapply passes_skip; eauto; try congruence.
Qed.

Lemma cache_only_mixin σ σ' e ob b :
  cache_only σ σ' → objs σ !! e = Some ob → mixin ob = Some b →
  ∃ ob' b', objs σ' !! e = Some ob' ∧ mixin ob' = Some b' ∧
    links ob' = links ob ∧ proxied ob' = proxied ob ∧
    _knspace b' = _knspace b ∧ _name b' = _name b ∧ knspace_key b' = knspace_key b.
Proof.
  intros (_ & _ & _ & Hc) Ho Hm. specialize (Hc e). rewrite Ho in Hc.
  destruct (objs σ' !! e) as [ob'|]; [|done].
  destruct Hc as (? & ? & ? & Hx). rewrite Hm in Hx.
  destruct (mixin ob') as [b'|] eqn:Hm'; [|done]. destruct Hx as (?&?&?).
  exists ob', b'. repeat split; eauto.
Qed.

Lemma update_mixin_lookup e f o b σ :
  objs σ !! e = Some o → mixin o = Some b →
  objs (fst (update_mixin e f σ)) !! e = Some (set_mixin (f b) o).
Proof.
  intros Ho Hm. unfold update_mixin, modify, set_objs. simpl.
  rewrite lookup_alter. rewrite decide_True by done. rewrite Ho. simpl. by rewrite Hm.
Qed.

Lemma update_mixin_lookup_ne e e' f σ :
  e ≠ e' → objs (fst (update_mixin e f σ)) !! e' = objs σ !! e'.
Proof.
  intros. unfold update_mixin, modify, set_objs. simpl.
  rewrite lookup_alter. by rewrite decide_False.
Qed.

Lemma update_mixin_spaces e f σ : spaces (fst (update_mixin e f σ)) = spaces σ.
Proof. done. Qed.

Lemma update_mixin_proxied e f σ r :
  (proxied <$> objs (fst (update_mixin e f σ)) !! r) = (proxied <$> objs σ !! r).
Proof.
  unfold update_mixin, modify, set_objs. simpl. rewrite lookup_alter.
  case_decide; [subst|done]. destruct (objs σ !! r) as [o|]; [|done]. simpl.
  by destruct (mixin o).
Qed.

Lemma stored_update_mixin e f σ v : stored (fst (update_mixin e f σ)) v = stored σ v.
Proof.
  destruct v; try done. unfold stored.
  pose proof (update_mixin_proxied e f σ o) as H.
  destruct (objs (fst (update_mixin e f σ)) !! o), (objs σ !! o); simpl in H;
    try done; by injection H as ->.
Qed.

(** C5, as amended: assigning a non-empty name to an entity whose namespace
    resolves to None raises the ValueError; no namespace is modified, and the
    entity's stored name is already the new one. *)
Theorem set_name_without_namespace fuel σ σ1 e n :
  nonempty n = true →
  _get_knspace fuel e σ = (σ1, Ok None) →
  ∃ σ', _set_name fuel e n σ = (σ', Raise (ValueError_name n)) ∧
        spaces σ' = spaces σ ∧
        _get_name e σ' = (σ', Ok n).
Proof.
  intros Hn Hg.
  assert (∃ ob b, objs σ !! e = Some ob ∧ mixin ob = Some b) as (ob & b & Ho & Hm).
  { destruct fuel; [done|]. simpl in Hg.
    apply bind_ok_inv in Hg as (b & σ2 & Hb & _).
    apply the_mixin_inv in Hb as [_ (ob & ? & ?)]. eauto. }
  pose proof (proj1 (getter_cache_only fuel) _ _ _ _ Hg) as Hc.
  destruct (cache_only_mixin _ _ _ _ _ Hc Ho Hm) as (ob1 & b1 & Ho1 & Hm1 & _).
  exists (fst (update_mixin e (with_name n) σ1)). split; [|split].
  - unfold _set_name, bind. rewrite (the_mixin_some _ _ _ _ Ho Hm), Hg.
    unfold truthy. rewrite bool_decide_eq_false_2 by (by intros [??]).
    rewrite andb_false_r. unfold ret. rewrite update_mixin_eq. by rewrite Hn.
  - rewrite update_mixin_spaces. by destruct Hc as (_ & -> & _).
  - unfold _get_name, bind.
    by rewrite (the_mixin_some _ _ _ _
                  (update_mixin_lookup _ (with_name n) _ _ _ Ho1 Hm1) eq_refl).
Qed.

Lemma getattr_ext σ τ fuel r name :
  spaces τ = spaces σ → class_attrs τ = class_attrs σ →
  KNSpace.getattr fuel τ r name = KNSpace.getattr fuel σ r name.
Proof.
  intros Hs Hc. revert r. induction fuel as [|fuel IH]; intros r; [done|].
  simpl. rewrite Hs. destruct (spaces σ !! r) as [o|]; [|done].
  unfold EventDispatcher.__getattribute__, KNSpace.__getattr__. rewrite Hc.
  destruct (props o !! name); [done|]. destruct (dict o !! name); [done|].
  case_bool_decide; [done|]. destruct (parent o); [apply IH | done].
Qed.

(** Clearing the name of an entity leaves None under its old name in its
    namespace, whoever occupied that name. *)
Lemma set_name_empty_clears fuel σ σ' e ob b :
  objs σ !! e = Some ob → mixin ob = Some b → nonempty (_name b) = true →
  _set_name fuel e "" σ = (σ', Ok tt) →
  ∀ N σ1, _get_knspace fuel e σ = (σ1, Ok (Some N)) →
  ∀ fuel', KNSpace.getattr (S fuel') σ' N (_name b) = Ok VNone.
Proof.
  intros Ho Hm Hn H N σ1 Hg fuel'. unfold _set_name in H.
  unfold bind at 1 in H. rewrite (the_mixin_some _ _ _ _ Ho Hm) in H.
  unfold bind at 1 in H. rewrite Hg in H.
  rewrite Hn in H. unfold truthy in H. rewrite bool_decide_eq_true_2 in H by eauto.
  simpl in H. apply bind_ok_inv in H as (u1 & σ2 & Hclear & H).
  apply bind_ok_inv in H as (u2 & σ3 & Hupd & H).
  unfold ret in H. unfold update_mixin, modify in Hupd. simplify_eq.
  destruct u1. rewrite (getattr_ext σ2) by done.
  destruct (getattr_after_setattr _ fuel' _ _ _ _ _ Hclear) as (v' & ? & Hv').
  by destruct Hv' as [-> | ->].
Qed.

(** ** Reacting to a changed namespace *)

Lemma setattr_objs fuel r name v σ σ' res :
  KNSpace.__setattr__ fuel r name v σ = (σ', res) →
  objs σ' = objs σ ∧ class_attrs σ' = class_attrs σ.
Proof.
  intros H. apply setattr_inv in H as [[_ ->]|(_ & o & o' & pc & _ & -> & _)]; done.
Qed.

Lemma setattr_other_space fuel r r' name v σ σ' res :
  KNSpace.__setattr__ fuel r name v σ = (σ', res) → r' ≠ r →
  spaces σ' !! r' = spaces σ !! r'.
Proof.
  intros H Hne. apply setattr_inv in H as [[_ ->]|(_ & o & o' & pc & _ & -> & _)]; [done|].
  by apply lookup_put_ne.
Qed.

Lemma setattr_local fuel r name v σ σ' :
  KNSpace.__setattr__ fuel r name v σ = (σ', Ok tt) →
  ∃ o' v', spaces σ' !! r = Some o' ∧
    (∀ τ, EventDispatcher.__getattribute__ τ o' name = Some v') ∧
    (v' = v ∨ v' = stored σ v).
Proof.
  intros H. apply setattr_inv in H as [[? _]|(_ & o & o' & pc & Hr & -> & Hc)]; [done|].
  exists o'. rewrite lookup_put. unfold EventDispatcher.__getattribute__.
  destruct Hc as [w Hp _|n' Hp _|s Hp _|s Hp _]; simpl;
    eexists; (split; [done|]); rewrite ?lookup_insert_eq, ?Hp; eauto.
Qed.

Lemma setattr_resolving fuel σ r name v w :
  KNSpace.getattr fuel σ r name = Ok w →
  ∃ σ', KNSpace.__setattr__ fuel r name v σ = (σ', Ok tt).
Proof.
  intros Hg. destruct fuel; [done|].
  destruct (spaces σ !! r) as [o|] eqn:Hr; [|by simpl in Hg; rewrite Hr in Hg].
  destruct (props o !! name) as [s|] eqn:Hp.
  - destruct (decide (name ∈ has_applied o)).
    + eexists. by eapply setattr_store.
    + eexists. by eapply setattr_link.
  - eexists. by eapply setattr_plain.
Qed.

Lemma eq_self_stored e σ : eq_self e (stored σ (VObj e)) = true.
Proof.
  unfold stored. destruct (objs σ !! e) as [ob|]; [destruct (proxied ob)|];
    simpl; by apply bool_decide_eq_true_2.
Qed.

Lemma cached_lookup e v ob b σ :
  objs σ !! e = Some ob → mixin ob = Some b →
  objs (cached e v σ) !! e = Some (set_mixin (with_last v b) ob).
Proof. apply update_mixin_lookup. Qed.

Lemma case_value fuel σ r name v o o' pc :
  setattr_case fuel σ r name v o o' pc →
  (props o' !! name = None ∧ dict o' !! name = Some v) ∨
  (∃ s, props o' !! name = Some s ∧ slot_value s = stored σ v).
Proof.
  intros [w Hp _|n' Hp _|s Hp _|s Hp _]; simpl; rewrite ?lookup_insert_eq; eauto.
Qed.

(** C7, as amended: after a successful [name = n] with [n] non-empty the
    entity's namespace yields for [n] the weak handle of the entity when
    the name is kept in a slot there and the entity hands out a [proxy_ref]
    distinct from itself, and the entity itself otherwise. *)
Theorem set_name_registers fuel σ σ' e n :
  nonempty n = true →
  _set_name fuel e n σ = (σ', Ok tt) →
  ∃ N σ1 o' ob v,
    _get_knspace fuel e σ = (σ1, Ok (Some N)) ∧
    spaces σ' !! N = Some o' ∧ objs σ' !! e = Some ob ∧
    v = (if bool_decide (is_Some (props o' !! n)) && proxied ob
         then VProxy e else VObj e) ∧
    eq_self e v = true ∧
    ∀ fuel', KNSpace.getattr (S fuel') σ' N n = Ok v.
Proof.
  intros Hn H. unfold _set_name in H.
  apply bind_ok_inv in H as (b & σ0 & Hb & H).
  apply the_mixin_inv in Hb as [-> (ob0 & Ho0 & Hm0)].
  apply bind_ok_inv in H as (k & σ1 & Hg & H).
  apply bind_ok_inv in H as (u1 & σ2 & Hclear & H).
  apply bind_ok_inv in H as (u2 & σ3 & Hupd & H).
  rewrite Hn in H. destruct k as [N|]; [|done].
  unfold truthy in H. rewrite bool_decide_eq_true_2 in H by eauto.
  simpl in H.
  assert (∃ ob3, objs σ3 !! e = Some ob3) as [ob3 Ho3].
  { pose proof (proj1 (getter_cache_only fuel) _ _ _ _ Hg) as Hc.
    destruct (cache_only_mixin _ _ _ _ _ Hc Ho0 Hm0) as (ob1 & b1 & Ho1 & Hm1 & _).
    assert (objs σ2 !! e = Some ob1) as Ho2.
    { destruct (nonempty (_name b) && truthy (Some N)).
      - simpl in Hclear. by apply setattr_objs in Hclear as [-> _].
      - unfold ret in Hclear. by simplify_eq. }
    rewrite update_mixin_eq in Hupd. injection Hupd as <-.
    eexists. by apply update_mixin_lookup. }
  pose proof H as Hset.
  apply setattr_inv in H as [[? _]|(_ & o & o' & pc & Hr & -> & Hcase)]; [done|].
  eexists N, σ1, o', ob3, _. split; [done|]. split; [apply lookup_put|].
  split; [done|]. split; [reflexivity|]. split.
  { destruct (bool_decide (is_Some (props o' !! n)) && proxied ob3);
      simpl; by apply bool_decide_eq_true_2. }
  intros fuel'.
  destruct (case_value _ _ _ _ _ _ _ _ Hcase) as [[Hp Hd]|(s & Hp & Hs)].
  - rewrite Hp. rewrite bool_decide_eq_false_2 by (by intros [??]).
    rewrite andb_false_l.
    eapply getattr_local; [apply lookup_put|].
    unfold EventDispatcher.__getattribute__. by rewrite Hp, Hd.
  - rewrite Hp. rewrite bool_decide_eq_true_2 by eauto. rewrite andb_true_l.
    eapply getattr_local; [apply lookup_put|].
    unfold EventDispatcher.__getattribute__. rewrite Hp, Hs.
    unfold stored. by rewrite Ho3.
Qed.

Lemma exchange_unfold fuel σ e ob b new :
  objs σ !! e = Some ob → mixin ob = Some b →
  last_knspace b ≠ new → nonempty (_name b) = true →
  __exchange_nspace fuel e new σ =
  ((if truthy new then setattr fuel new (_name b) (VObj e) else ret tt) ;;;
   v <- getattr fuel (last_knspace b) (_name b) ;;
   if eq_self e v then setattr fuel (last_knspace b) (_name b) VNone else ret tt)
  (cached e new σ).
Proof.
  intros Ho Hm Hne Hn. unfold __exchange_nspace.
  unfold bind at 1. rewrite (the_mixin_some _ _ _ _ Ho Hm).
  rewrite bool_decide_eq_false_2 by done.
  unfold bind at 1. rewrite update_mixin_eq. fold (cached e new σ).
  unfold bind at 1. unfold _get_name, bind at 1.
  rewrite (the_mixin_some _ _ _ _ (cached_lookup _ new _ _ _ Ho Hm) eq_refl).
  unfold ret at 1. change (_name (with_last new b)) with (_name b). by rewrite Hn.
Qed.

(** C9: [__exchange_nspace] does nothing when the new namespace is the
    cached one; otherwise it updates the cache, whatever follows, and stops
    for an anonymous entity.  For a named one it registers the entity in
    the new namespace if there is one, and a failure of that store is the
    outcome of the call; then, also when the new namespace is None, it looks
    the name up in the previous namespace and clears it there exactly when
    the lookup yields the entity; with no previous namespace, or a name
    that does not resolve there, that lookup raises after the
    registration. *)
Theorem exchange_nspace_spec fuel σ e ob b new :
  objs σ !! e = Some ob → mixin ob = Some b →
  let last := last_knspace b in
  let name := _name b in
  let σ0 := cached e new σ in
  (last = new → __exchange_nspace fuel e new σ = (σ, Ok tt)) ∧
  (last ≠ new →
     (∀ σ' res, __exchange_nspace fuel e new σ = (σ', res) →
        ∃ ob' b', objs σ' !! e = Some ob' ∧ mixin ob' = Some b' ∧
                  last_knspace b' = new) ∧
     (nonempty name = false → __exchange_nspace fuel e new σ = (σ0, Ok tt)) ∧
     (nonempty name = true →
      ∀ σ1 r1,
        match new with
        | Some N => KNSpace.__setattr__ fuel N name (VObj e) σ0
        | None => (σ0, Ok tt)
        end = (σ1, r1) →
        ∃ σ' res, __exchange_nspace fuel e new σ = (σ', res) ∧
          (r1 ≠ Ok tt → σ' = σ0 ∧ res = r1) ∧
          (r1 = Ok tt →
             (∀ N, new = Some N →
                ∀ f, ∃ v, KNSpace.getattr (S f) σ' N name = Ok v ∧
                          eq_self e v = true) ∧
             match last with
             | None => σ' = σ1 ∧ res = Raise (AttributeError name)
             | Some L =>
               match KNSpace.getattr fuel σ1 L name with
               | Ok w =>
                 res = Ok tt ∧
                 if eq_self e w
                 then KNSpace.__setattr__ fuel L name VNone σ1 = (σ', Ok tt) ∧
                      ∀ f, KNSpace.getattr (S f) σ' L name = Ok VNone
                 else σ' = σ1
               | Raise x => σ' = σ1 ∧ res = Raise x
               | OutOfFuel => σ' = σ1 ∧ res = OutOfFuel
               end
             end))).
Proof.
  intros Ho Hm last name σ0. subst σ0 last name. split.
  { intros E. unfold __exchange_nspace, bind. rewrite (the_mixin_some _ _ _ _ Ho Hm).
    by rewrite bool_decide_eq_true_2. }
  intros Hne.
  assert (Hcached : objs (cached e new σ) !! e = Some (set_mixin (with_last new b) ob))
    by (by apply cached_lookup).
  assert (Hanon : nonempty (_name b) = false →
                  __exchange_nspace fuel e new σ = ((cached e new σ), Ok tt)).
  { intros Hn. unfold __exchange_nspace.
    unfold bind at 1. rewrite (the_mixin_some _ _ _ _ Ho Hm).
    rewrite bool_decide_eq_false_2 by done.
    unfold bind at 1. rewrite update_mixin_eq. fold (cached e new σ).
    unfold bind at 1. unfold _get_name, bind at 1.
    rewrite (the_mixin_some _ _ _ _ Hcached eq_refl).
    unfold ret at 1. change (_name (with_last new b)) with (_name b). by rewrite Hn. }
  split; [|split; [done|]].
  - intros σ' res H. destruct (nonempty (_name b)) eqn:Hn.
    2:{ rewrite (Hanon eq_refl) in H. simplify_eq. eexists _, _. eauto. }
    rewrite (exchange_unfold _ _ _ _ _ _ Ho Hm Hne Hn) in H.
    assert (objs σ' = objs (cached e new σ)) as ->; [|eexists _, _; eauto].
    apply bind_inv in H as [(u & σ1 & H1 & H)|[(x & H1 & _)|[H1 _]]].
    + assert (objs σ1 = objs (cached e new σ)) as <-.
      { destruct (truthy new) eqn:Ht; [|unfold ret in H1; by simplify_eq].
        destruct new as [N|]; [|unfold setattr, raise in H1; by simplify_eq].
        by apply setattr_objs in H1 as [? _]. }
      apply bind_inv in H as [(w & σ2 & H2 & H)|[(x & H2 & _)|[H2 _]]].
      * assert (σ2 = σ1) as ->.
        { destruct (last_knspace b); unfold getattr, raise in H2; by simplify_eq. }
        destruct (eq_self e w); [|unfold ret in H; by simplify_eq].
        destruct (last_knspace b) as [L|]; [|unfold setattr, raise in H; by simplify_eq].
        by apply setattr_objs in H as [? _].
      * destruct (last_knspace b); unfold getattr, raise in H2; by simplify_eq.
      * destruct (last_knspace b); unfold getattr, raise in H2; by simplify_eq.
    + destruct (truthy new) eqn:Ht; [|unfold ret in H1; by simplify_eq].
      destruct new as [N|]; [|unfold setattr, raise in H1; by simplify_eq].
      by apply setattr_objs in H1 as [? _].
    + destruct (truthy new) eqn:Ht; [|unfold ret in H1; by simplify_eq].
      destruct new as [N|]; [|unfold setattr, raise in H1; by simplify_eq].
      by apply setattr_objs in H1 as [? _].
  - intros Hn σ1 r1 Hreg.
    rewrite (exchange_unfold _ _ _ _ _ _ Ho Hm Hne Hn).
    assert ((if truthy new then setattr fuel new (_name b) (VObj e) else ret tt)
              (cached e new σ) = (σ1, r1)) as Hreg'.
    { destruct new as [N|]; [|done]. unfold truthy.
      by rewrite bool_decide_eq_true_2 by eauto. }
    unfold bind at 1. rewrite Hreg'.
    destruct r1 as [[]|x|].
    2:{ eexists _, _. split; [reflexivity|]. split; [|done]. intros _.
        destruct new as [N|]; [|by simplify_eq].
        apply setattr_inv in Hreg as [[_ ->]|[? _]]; done. }
    2:{ eexists _, _. split; [reflexivity|]. split; [|done]. intros _.
        destruct new as [N|]; [|by simplify_eq].
        apply setattr_inv in Hreg as [[_ ->]|[? _]]; done. }
    (* the registration returned *)
    assert (Hkeep : ∀ σ', (∀ N, new = Some N → spaces σ' !! N = spaces σ1 !! N) →
              ∀ N, new = Some N →
              ∀ f, ∃ v, KNSpace.getattr (S f) σ' N (_name b) = Ok v ∧
                        eq_self e v = true).
    { intros σ' Hsame N -> f.
      destruct (setattr_local _ _ _ _ _ _ Hreg) as (oN & v & HoN & Hloc & Hv).
      exists v. split.
      - eapply getattr_local; [|apply Hloc]. by rewrite (Hsame N eq_refl).
      - destruct Hv as [-> | ->];
          [by apply bool_decide_eq_true_2 | apply eq_self_stored]. }
    destruct (last_knspace b) as [L|] eqn:El.
    2:{ eexists _, _. split; [reflexivity|]. split; [done|]. intros _.
        split; [|done]. by apply Hkeep. }
    unfold bind, getattr.
    destruct (KNSpace.getattr fuel σ1 L (_name b)) as [w|x|] eqn:Hg.
    + destruct (eq_self e w) eqn:Hw.
      * destruct (setattr_resolving _ _ _ _ VNone _ Hg) as (σ2 & Hclear).
        simpl setattr. rewrite Hclear. eexists _, _. split; [reflexivity|].
        split; [done|]. intros _. split; [|split; [done|split; [done|]]].
        -- apply Hkeep. intros N ->.
           apply (setattr_other_space _ _ _ _ _ _ _ _ Hclear). congruence.
        -- intros f. destruct (getattr_after_setattr _ f _ _ _ _ _ Hclear) as (v' & ? & Hv').
           by destruct Hv' as [-> | ->].
      * eexists _, _. split; [reflexivity|]. split; [done|]. intros _.
        split; [|done]. by apply Hkeep.
    + eexists _, _. split; [reflexivity|]. split; [done|]. intros _.
      split; [|done]. by apply Hkeep.
    + eexists _, _. split; [reflexivity|]. split; [done|]. intros _.
      split; [|done]. by apply Hkeep.
Qed.

(** ** Parent chains and clones *)


Lemma getattr_frame σ τ name :
  closed σ → class_attrs τ = class_attrs σ →
  (∀ r, is_Some (spaces σ !! r) → spaces τ !! r = spaces σ !! r) →
  ∀ fuel r, is_Some (spaces σ !! r) →
    KNSpace.getattr fuel τ r name = KNSpace.getattr fuel σ r name.
Proof.
  intros Hcl Hc Hs. induction fuel as [|fuel IH]; intros r Hr; [done|].
  simpl. rewrite (Hs r Hr). destruct Hr as [o Hr]. rewrite Hr.
  unfold EventDispatcher.__getattribute__, KNSpace.__getattr__. rewrite Hc.
  destruct (props o !! name); [done|]. destruct (dict o !! name); [done|].
  case_bool_decide; [done|]. destruct (parent o) as [p|] eqn:Hp; [|done].
  apply IH. by eapply Hcl.
Qed.

(** On a chain of [n] ancestors, fuel beyond [n] is enough: a lookup finds
    the name or raises AttributeError, and a store returns. *)
Lemma getattr_returns σ r n name :
  depth σ r n →
  ∀ fuel, n < fuel →
    (∃ v, KNSpace.getattr fuel σ r name = Ok v) ∨
    KNSpace.getattr fuel σ r name = Raise (AttributeError name).
Proof.
  induction 1 as [r o Hr Hp|r o p n Hr Hp _ IH]; intros [|fuel] Hlt; try lia.
  - destruct (EventDispatcher.__getattribute__ σ o name) as [v|] eqn:Hl.
    + left. exists v. by eapply getattr_local.
    + right. by eapply getattr_unresolved.
  - destruct (EventDispatcher.__getattribute__ σ o name) as [v|] eqn:Hl.
    + left. exists v. by eapply getattr_local.
    + erewrite getattr_delegate by done. apply IH. lia.
Qed.

Lemma setattr_returns σ r n name v :
  depth σ r n →
  ∀ fuel, n < fuel → ∃ σ', KNSpace.__setattr__ fuel r name v σ = (σ', Ok tt).
Proof.
  intros Hd fuel Hlt.
  assert (∃ o, spaces σ !! r = Some o) as [o Hr] by (destruct Hd; eauto).
  destruct (props o !! name) as [s|] eqn:Hp.
  - destruct (decide (name ∈ has_applied o)).
    + eexists. by eapply setattr_store.
    + eexists. by eapply setattr_link.
  - destruct (getattr_returns _ _ _ name Hd fuel Hlt) as [[w Hg]|Hg].
    + eexists. by eapply setattr_plain.
    + eexists. by eapply setattr_create.
Qed.

(** More fuel does not change the outcome of a lookup that was decided. *)
Lemma getattr_fuel_mono σ name fuel :
  ∀ r res, KNSpace.getattr fuel σ r name = res → res ≠ OutOfFuel →
  ∀ fuel', fuel ≤ fuel' → KNSpace.getattr fuel' σ r name = res.
Proof.
  induction fuel as [|fuel IH]; intros r res Hg Hres fuel' Hle.
  { simpl in Hg. congruence. }
  destruct fuel' as [|fuel']; [lia|]. simpl in *.
  destruct (spaces σ !! r) as [o|]; [|done].
  destruct (EventDispatcher.__getattribute__ σ o name); [done|].
  unfold KNSpace.__getattr__ in *. destruct (parent o); [|done].
  eapply IH; [done|done|lia].
Qed.



(** ** Observable slots *)

Lemma slots_grow_refl o : slots_grow o o.
Proof. split; [done|]. eauto. Qed.

Lemma slots_grow_trans o1 o2 o3 :
  slots_grow o1 o2 → slots_grow o2 o3 → slots_grow o1 o3.
Proof.
  intros [Ha1 Hd1] [Ha2 Hd2]. split; [set_solver|].
  intros n s Hs. destruct (Hd1 _ _ Hs) as (s2 & Hs2 & E2).
  destruct (Hd2 _ _ Hs2) as (s3 & Hs3 & E3). exists s3. split; [done|congruence].
Qed.

Lemma slots_kept_refl σ : slots_kept σ σ.
Proof. intros r o Hr. eauto using slots_grow_refl. Qed.

Lemma slots_kept_trans σ1 σ2 σ3 :
  slots_kept σ1 σ2 → slots_kept σ2 σ3 → slots_kept σ1 σ3.
Proof.
  intros H1 H2 r o Hr. destruct (H1 _ _ Hr) as (o2 & Hr2 & ?).
  destruct (H2 _ _ Hr2) as (o3 & Hr3 & ?). eauto using slots_grow_trans.
Qed.

Lemma slots_kept_put r o o' pc σ :
  spaces σ !! r = Some o → slots_grow o o' → slots_kept σ (put r o' pc σ).
Proof.
  intros Hr Hg r' o0 Hr'. destruct (decide (r' = r)) as [->|Hne].
  - rewrite lookup_put. simplify_eq. eauto.
  - rewrite lookup_put_ne by done. eauto using slots_grow_refl.
Qed.

Lemma case_slots_grow fuel σ r name v o o' pc :
  setattr_case fuel σ r name v o o' pc → slots_grow o o'.
Proof. intros Hc. split; [by eapply case_applied|]. intros n s. by eapply case_descriptor. Qed.

Lemma case_builds fuel σ r name v o o' pc :
  setattr_case fuel σ r name v o o' pc → builds σ name o o' pc.
Proof.
  intros Hc Hpc. destruct Hc as [w Hp _|n' Hp _|s Hp _|s Hp _]; try done.
  split; [done|]. split; [done|]. eexists. simpl. rewrite lookup_insert_eq.
  split; [done|]. split; [done|]. set_solver.
Qed.

Lemma run_call_inv fuel r c σ σ' res o :
  spaces σ !! r = Some o → run_call fuel r c σ = (σ', res) →
  σ' = σ ∨
  ∃ o' pc, σ' = put r o' pc σ ∧ slots_grow o o' ∧ builds σ (call_name c) o o' pc.
Proof.
  intros Hr H. destruct c as [n v|n q]; simpl in H.
  - apply setattr_inv in H as [[_ ->]|(_ & o0 & o' & pc & Hr0 & -> & Hc)]; [by left|].
    simplify_eq. right. exists o', pc. split; [done|].
    split; [by eapply case_slots_grow | by eapply case_builds].
  - unfold bind in H. destruct (props o !! n) as [s|] eqn:Hp.
    + rewrite (property_existing _ _ _ _ _ _ Hr Hp) in H. left. unfold ret in H. by simplify_eq.
    + destruct q.
      * rewrite (property_create _ _ _ _ Hr Hp) in H. unfold ret in H. simplify_eq.
        right. eexists _, _. split; [done|]. split.
        -- split; [simpl; set_solver|]. intros n' s Hs. exists s. split; [|done].
           simpl. rewrite lookup_insert_ne; [done|]. intros ->. congruence.
        -- intros _. split; [done|]. split; [done|]. eexists. simpl.
           rewrite lookup_insert_eq. split; [done|]. split; [done|]. set_solver.
      * rewrite (property_raise _ _ _ _ Hr Hp) in H. left. by simplify_eq.
Qed.

Lemma run_call_dangling fuel r c σ σ' res :
  spaces σ !! r = None → run_call fuel r c σ = (σ', res) → σ' = σ.
Proof.
  intros Hr H. destruct c as [n v|n q]; simpl in H.
  - rewrite setattr_dangling in H by done. by simplify_eq.
  - unfold bind in H. rewrite property_dangling in H by done. by simplify_eq.
Qed.

Lemma step_slots_kept σ σ' : ns_step σ σ' → slots_kept σ σ'.
Proof.
  intros (fuel & r & c & res & H).
  destruct (spaces σ !! r) as [o|] eqn:Hr.
  - destruct (run_call_inv _ _ _ _ _ _ _ Hr H) as [->|(o' & pc & -> & Hg & _)].
    + apply slots_kept_refl.
    + by eapply slots_kept_put.
  - rewrite (run_call_dangling _ _ _ _ _ _ Hr H). apply slots_kept_refl.
Qed.

Lemma calls_slots_kept σ σ' : rtc ns_step σ σ' → slots_kept σ σ'.
Proof.
  induction 1 as [|σ1 σ2 σ3 Hs _ IH]; [apply slots_kept_refl|].
  eapply slots_kept_trans; [by apply step_slots_kept | done].
Qed.

(** ** Worlds that leave the names of the class alone *)

Lemma intact_lookup o :
  intact o ↔ ∀ n, n ∈ self_attrs → props o !! n = None ∧ dict o !! n = None.
Proof.
  unfold intact. split.
  - intros [Hp Hd] n Hn. split; apply not_elem_of_dom; intros Hin.
    + by apply (Hp n).
    + by apply (Hd n).
  - intros H. split; intros n Hin Hn; destruct (H n Hn) as [Hp Hd];
      apply elem_of_dom in Hin as [x Hx]; congruence.
Qed.

Lemma regular_lookup σ :
  regular σ ↔ ∀ r o, spaces σ !! r = Some o → intact o.
Proof. apply map_Forall_lookup. Qed.

Lemma regular_spaces σ σ' : spaces σ' = spaces σ → regular σ → regular σ'.
Proof. unfold regular. by intros ->. Qed.

Lemma regular_put r o' pc σ : intact o' → regular σ → regular (put r o' pc σ).
Proof. intros Ho H. unfold regular. rewrite spaces_put. by apply map_Forall_insert_2. Qed.

Lemma case_intact fuel σ r name v o o' pc :
  setattr_case fuel σ r name v o o' pc → name ∉ self_attrs → intact o → intact o'.
Proof.
  rewrite !intact_lookup. intros Hc Hn Ho n Hin.
  assert (n ≠ name) as Hne by (intros ->; done).
  rewrite (case_props_other Hc n Hne), (case_dict_other Hc n Hne). by apply Ho.
Qed.

Lemma store_regular fuel r name v σ σ' res :
  name ∉ self_attrs → KNSpace.__setattr__ fuel r name v σ = (σ', res) →
  regular σ → regular σ'.
Proof.
  intros Hn H HP. apply setattr_inv in H as [[_ ->]|(_ & o & o' & pc & Hr & -> & Hc)]; [done|].
  apply regular_put; [|done]. eapply case_intact; [done|done|].
  by eapply (proj1 (regular_lookup σ)).
Qed.

Lemma property_regular r name quiet σ σ' res :
  name ∉ self_attrs → KNSpace.property r name quiet σ = (σ', res) →
  regular σ → regular σ'.
Proof.
  intros Hn H HP. destruct (spaces σ !! r) as [o|] eqn:Hr.
  2:{ rewrite property_dangling in H by done. by simplify_eq. }
  destruct (props o !! name) as [s|] eqn:Hp.
  { rewrite (property_existing _ _ _ _ _ _ Hr Hp) in H. by simplify_eq. }
  destruct quiet.
  - rewrite (property_create _ _ _ _ Hr Hp) in H. simplify_eq.
    apply regular_put; [|done]. apply intact_lookup. intros n Hin. simpl.
    rewrite lookup_insert_ne by (intros ->; done).
    by apply (proj1 (intact_lookup o) (proj1 (regular_lookup σ) HP _ _ Hr)).
  - rewrite (property_raise _ _ _ _ Hr Hp) in H. by simplify_eq.
Qed.

Lemma new_regular p σ σ' res :
  KNSpace.__init__ p σ = (σ', res) → regular σ → regular σ'.
Proof.
  intros H HP. unfold KNSpace.__init__, bind, gets, modify, ret in H. simplify_eq.
  unfold regular. simpl. apply map_Forall_insert_2; [|done].
  apply intact_lookup. intros n _. simpl. by rewrite !lookup_empty.
Qed.

Lemma run_call_regular fuel r c σ σ' res :
  call_name c ∉ self_attrs → run_call fuel r c σ = (σ', res) →
  regular σ → regular σ'.
Proof.
  destruct c as [n v|n q]; simpl; intros Hn H HP.
  - by eapply store_regular.
  - apply bind_inv in H as [(a & σ1 & H1 & H2)|[(e & H1 & _)|[H1 _]]];
      try by eapply property_regular.
    unfold ret in H2. simplify_eq. by eapply property_regular.
Qed.

Lemma plain_ns_step_ns_step σ σ' : plain_ns_step σ σ' → ns_step σ σ'.
Proof. intros (fuel & r & c & res & _ & H). by exists fuel, r, c, res. Qed.

Lemma plain_calls_ns_step σ σ' : rtc plain_ns_step σ σ' → rtc ns_step σ σ'.
Proof.
  induction 1 as [|σ1 σ2 σ3 Hs _ IH]; [done|].
  eapply rtc_l; [by apply plain_ns_step_ns_step|done].
Qed.

Lemma plain_calls_regular σ σ' : rtc plain_ns_step σ σ' → regular σ → regular σ'.
Proof.
  induction 1 as [|σ1 σ2 σ3 (fuel & r & c & res & Hn & H) _ IH]; [done|].
  intros HP. apply IH. by eapply run_call_regular.
Qed.

(** C8, as amended: in a world where no namespace has a slot or a plain
    attribute under a name of [self_attrs], and for calls under other
    names: a store on a name that does not resolve on the namespace, and a
    quiet property request for a name without slot, build one descriptor; a
    store on a name without slot that does resolve, as through the parent
    chain, is kept as a plain attribute and builds and records nothing; a
    call builds a descriptor only for a name that had no slot, and links
    and records it; whatever such calls follow, every slot keeps its
    descriptor and the applied set only grows, and the world stays of that
    kind. *)
Theorem slot_built_at_most_once fuel r c σ σ1 σ2 res o :
  regular σ → call_name c ∉ self_attrs →
  spaces σ !! r = Some o →
  run_call fuel r c σ = (σ1, res) →
  rtc plain_ns_step σ1 σ2 →
  (∀ n v n', c = CallSet n v →
     KNSpace.getattr fuel σ r n = Raise (AttributeError n') →
     res = Ok tt ∧ prop_count σ1 = S (prop_count σ)) ∧
  (∀ n, c = CallProperty n true → props o !! n = None →
     res = Ok tt ∧ prop_count σ1 = S (prop_count σ)) ∧
  (∀ n v w, c = CallSet n v → props o !! n = None →
     KNSpace.getattr fuel σ r n = Ok w →
     res = Ok tt ∧ prop_count σ1 = prop_count σ ∧
     ∃ o1, spaces σ1 !! r = Some o1 ∧ props o1 = props o ∧
           has_applied o1 = has_applied o ∧ dict o1 !! n = Some v) ∧
  (prop_count σ1 ≠ prop_count σ →
     props o !! call_name c = None ∧ prop_count σ1 = S (prop_count σ) ∧
     ∃ o1 s1, spaces σ1 !! r = Some o1 ∧ props o1 !! call_name c = Some s1 ∧
       prop_id (descriptor s1) = prop_count σ ∧ call_name c ∈ has_applied o1) ∧
  (∃ o1 o2, spaces σ1 !! r = Some o1 ∧ spaces σ2 !! r = Some o2 ∧
     slots_grow o o1 ∧ slots_grow o1 o2) ∧
  regular σ1 ∧ regular σ2.
Proof.
  intros Hreg Hname Hr Hrun Hlater.
  assert (regular σ1) as Hreg1 by (by eapply run_call_regular).
  split; [|split; [|split; [|split; [|split]]]].
  - intros n v n' -> Hg. simpl in Hrun.
    assert (props o !! n = None) as Hp.
    { destruct fuel; [done|]. simpl in Hg. rewrite Hr in Hg.
      unfold EventDispatcher.__getattribute__ in Hg. by destruct (props o !! n). }
    rewrite (setattr_create _ _ _ _ _ _ _ Hr Hp Hg) in Hrun. by simplify_eq.
  - intros n -> Hp. simpl in Hrun. unfold bind in Hrun.
    rewrite (property_create _ _ _ _ Hr Hp) in Hrun. unfold ret in Hrun. by simplify_eq.
  - intros n v w -> Hp Hg. simpl in Hrun.
    rewrite (setattr_plain _ _ _ _ _ _ _ Hr Hp Hg) in Hrun. simplify_eq.
    split; [done|]. split; [done|]. eexists. split; [apply lookup_put|].
    simpl. by rewrite lookup_insert_eq.
  - intros Hpc. destruct (run_call_inv _ _ _ _ _ _ _ Hr Hrun) as [->|(o' & pc & -> & _ & Hb)];
      [done|].
    destruct (Hb Hpc) as (Hp & -> & s' & ? & ? & ?). split; [done|]. split; [done|].
    exists o', s'. by rewrite lookup_put.
  - assert (∃ o1, spaces σ1 !! r = Some o1 ∧ slots_grow o o1) as (o1 & Hr1 & Hg1).
    { destruct (run_call_inv _ _ _ _ _ _ _ Hr Hrun) as [->|(o' & pc & -> & Hg & _)].
      - eauto using slots_grow_refl.
      - exists o'. by rewrite lookup_put. }
    destruct (calls_slots_kept _ _ (plain_calls_ns_step _ _ Hlater) _ _ Hr1)
      as (o2 & Hr2 & Hg2).
    eauto 10.
  - split; [done|]. by eapply plain_calls_regular.
Qed.

(** C3: an entity without explicit namespace and with a non-empty key walks
    the chain of its structural parents.  The ancestors it passes are the
    ones that expose no namespace; the first ancestor that does expose one
    ends the walk with that value, be it a plain [knspace] attribute (even
    one holding None) or the resolved namespace of an ancestor with the
    mixin; when the chain ends first, the root namespace is returned, and a
    second such entity resolved afterwards obtains the same root. *)
Theorem resolve_namespace_walk σ self ob b l last :
  objs σ !! self = Some ob → mixin ob = Some b →
  _knspace b = None → nonempty (knspace_key b) = true →
  passes σ (knspace_key b) (links ob !! knspace_key b) l last →
  ∀ fuel,
    (∀ p po v, last = Some p → objs σ !! p = Some po → mixin po = None →
       knspace_attr po = Some v →
       _get_knspace (S (length l + S fuel)) self σ = (cached self v σ, Ok v)) ∧
    (∀ p po bp v σ', last = Some p → objs σ !! p = Some po → mixin po = Some bp →
       _get_knspace fuel p σ = (σ', Ok v) →
       _get_knspace (S (length l + S fuel)) self σ = (cached self v σ', Ok v)) ∧
    (last = None →
       _get_knspace (S (length l + S fuel)) self σ
       = (cached self (Some knspace) σ, Ok (Some knspace))) ∧
    (last = None →
       ∀ other ob2 b2 l2,
         objs σ !! other = Some ob2 → mixin ob2 = Some b2 →
         _knspace b2 = None → nonempty (knspace_key b2) = true →
         passes σ (knspace_key b2) (links ob2 !! knspace_key b2) l2 None →
         ∃ σ1 σ2,
           _get_knspace (S (length l + S fuel)) self σ = (σ1, Ok (Some knspace)) ∧
           _get_knspace (S (length l2 + S fuel)) other σ1 = (σ2, Ok (Some knspace))).
Proof.
  intros Ho Hm Hk Hn Hp fuel.
  destruct (resolve_tri_state _ _ _ _ _ _ Ho Hm Hk Hn Hp fuel) as (Hroot & Hplain & Hmix).
  split; [done|]. split; [done|]. split; [done|].
  intros Hl other ob2 b2 l2 Ho2 Hm2 Hk2 Hn2 Hp2.
  exists (cached self (Some knspace) σ). eexists. split; [by apply Hroot|].
  pose proof (update_mixin_last self (Some knspace) σ) as Hc.
  fold (cached self (Some knspace) σ) in Hc.
  destruct (cache_only_mixin _ _ _ _ _ Hc Ho2 Hm2)
    as (ob2' & b2' & Ho2' & Hm2' & El & _ & Ek & _ & Ekey).
  apply (passes_cache_only _ _ _ _ _ _ Hc) in Hp2.
  rewrite <- Ekey, <- El in Hp2. rewrite <- Ek in Hk2. rewrite <- Ekey in Hn2.
  by apply (resolve_tri_state _ _ _ _ _ _ Ho2' Hm2' Hk2 Hn2 Hp2 fuel).
Qed.

(** ** Outcomes and frames of stores and lookups *)

(** X1: after a store [setattr(r, name, v)] that returned, the name is found
    on [r] itself, so a lookup on [r] returns with any fuel; what it yields
    is the value stored or its weak handle: None for None, and for an entity
    a value equal to that entity. *)
Theorem store_then_lookup fuel r name v σ σ' :
  KNSpace.__setattr__ fuel r name v σ = (σ', Ok tt) →
  ∃ o' v', spaces σ' !! r = Some o' ∧
    EventDispatcher.__getattribute__ σ' o' name = Some v' ∧
    (∀ fuel', KNSpace.getattr (S fuel') σ' r name = Ok v') ∧
    (v' = v ∨ v' = stored σ v) ∧
    (v = VNone → v' = VNone) ∧
    (∀ e, v = VObj e → eq_self e v' = true).
Proof.
  intros H. destruct (setattr_local _ _ _ _ _ _ H) as (o' & v' & Ho & Hloc & Hv).
  exists o', v'. split; [done|]. split; [apply Hloc|].
  split; [intros f; by eapply getattr_local|]. split; [done|]. split.
  - intros ->. by destruct Hv as [-> | ->].
  - intros e ->. destruct Hv as [-> | ->];
      [by apply bool_decide_eq_true_2 | apply eq_self_stored].
Qed.

(** X2: in a world where no namespace has a slot or a plain attribute
    under a name of [self_attrs], a store on [r] under another name,
    whatever its outcome, leaves the world of that kind and changes no
    entity and no class attribute, no namespace other than [r], no parent
    pointer, and no lookup under another name on any namespace; a store
    that does not return normally changes nothing at all. *)
Theorem store_leaves_rest fuel r name v σ σ' res :
  regular σ → name ∉ self_attrs →
  KNSpace.__setattr__ fuel r name v σ = (σ', res) →
  regular σ' ∧
  objs σ' = objs σ ∧ class_attrs σ' = class_attrs σ ∧
  (∀ r', r' ≠ r → spaces σ' !! r' = spaces σ !! r') ∧
  (∀ r', parent <$> spaces σ' !! r' = parent <$> spaces σ !! r') ∧
  (∀ fuel' r' n, n ≠ name →
     KNSpace.getattr fuel' σ' r' n = KNSpace.getattr fuel' σ r' n) ∧
  (res ≠ Ok tt → σ' = σ).
Proof.
  intros HP Hname H. split; [by eapply store_regular|].
  destruct (setattr_objs _ _ _ _ _ _ _ H) as [Ho Hc].
  split; [done|]. split; [done|].
  split; [intros r' Hr; by eapply setattr_other_space|].
  split; [|split].
  - intros r'. apply setattr_inv in H as [[_ ->]|(_ & o & o' & pc & Hr & -> & Hcase)];
      [done|].
    destruct (decide (r' = r)) as [->|Hne].
    + rewrite lookup_put, Hr. simpl. f_equal. by eapply case_parent.
    + by rewrite lookup_put_ne.
  - intros fuel' r' n Hn. by eapply getattr_other_after_setattr.
  - intros Hres. apply setattr_inv in H as [[_ ->]|(-> & _)]; done.
Qed.

Lemma depth_agree σ τ r n :
  (∀ r', is_Some (spaces σ !! r') → spaces τ !! r' = spaces σ !! r') →
  depth σ r n → depth τ r n.
Proof.
  intros Hs. induction 1 as [r o Hr Hp|r o p n Hr Hp _ IH].
  - eapply depth_root; [|done]. by rewrite Hs.
  - eapply depth_step; [|done|done]. by rewrite Hs.
Qed.

(** X3: [clone] of a namespace with [n] ancestors returns a namespace that
    did not exist before and has [n + 1] ancestors; every chain of the old
    heap is kept, and a lookup on the clone with fuel beyond [n + 1] finds
    the name or raises its AttributeError. *)
Theorem clone_extends_chain σ N n :
  depth σ N n →
  ∃ C σ', KNSpace.clone N σ = (σ', Ok C) ∧
    spaces σ !! C = None ∧
    depth σ' C (S n) ∧
    (∀ r m, depth σ r m → depth σ' r m) ∧
    ∀ name fuel, S n < fuel →
      (∃ v, KNSpace.getattr fuel σ' C name = Ok v) ∨
      KNSpace.getattr fuel σ' C name = Raise (AttributeError name).
Proof.
  intros Hd. destruct (clone_spec N σ) as [Hclone Hfresh].
  set (C := fresh (dom (spaces σ))) in *.
  set (σ' := set_spaces <[C := MkKNSpace (Some N) ∅ ∅ ∅]> σ) in *.
  assert (Hagree : ∀ r, is_Some (spaces σ !! r) → spaces σ' !! r = spaces σ !! r).
  { intros r [o Hr]. unfold σ'. simpl. rewrite lookup_insert_ne; [done|].
    intros ->. congruence. }
  assert (HdC : depth σ' C (S n)).
  { eapply depth_step; [apply lookup_insert_eq | done | by eapply depth_agree]. }
  exists C, σ'. split; [done|]. split; [done|]. split; [done|].
  split; [intros r m; by apply depth_agree|].
  intros name fuel Hlt. by eapply getattr_returns.
Qed.

Lemma getattr_raises fuel σ r name ex :
  KNSpace.getattr fuel σ r name = Raise ex →
  ex = ReferenceError ∨ ex = AttributeError name.
Proof.
  revert r. induction fuel as [|fuel IH]; intros r H; [done|]. simpl in H.
  destruct (spaces σ !! r) as [o|]; [|left; by simplify_eq].
  destruct (EventDispatcher.__getattribute__ σ o name); [done|].
  unfold KNSpace.__getattr__ in H. destruct (parent o) as [p|]; [by eapply IH|].
  right. by simplify_eq.
Qed.

Lemma store_raises fuel r name v σ σ' ex :
  KNSpace.__setattr__ fuel r name v σ = (σ', Raise ex) → ex = ReferenceError.
Proof.
  intros H. destruct (spaces σ !! r) as [o|] eqn:Hr.
  2:{ rewrite setattr_dangling in H by done. by simplify_eq. }
  destruct (props o !! name) as [s|] eqn:Hp.
  - destruct (decide (name ∈ has_applied o)) as [Hin|Hin].
    + by rewrite (setattr_store _ _ _ _ _ _ _ Hr Hp Hin) in H.
    + by rewrite (setattr_link _ _ _ _ _ _ _ Hr Hp Hin) in H.
  - destruct (KNSpace.getattr fuel σ r name) as [w|e|] eqn:Hg.
    + by rewrite (setattr_plain _ _ _ _ _ _ _ Hr Hp Hg) in H.
    + destruct (getattr_raises _ _ _ _ _ Hg) as [-> | ->].
      * unfold KNSpace.__setattr__, bind in H.
        rewrite (property_none _ _ _ _ _ Hr Hp), (the_space_some _ _ _ Hr) in H.
        rewrite hasattr_getattr, Hg in H. by simplify_eq.
      * by rewrite (setattr_create _ _ _ _ _ _ _ Hr Hp Hg) in H.
    + unfold KNSpace.__setattr__, bind in H.
      rewrite (property_none _ _ _ _ _ Hr Hp), (the_space_some _ _ _ Hr) in H.
      rewrite hasattr_getattr, Hg in H. by simplify_eq.
Qed.

(** X4: after [C = N.clone()], a store on [C], whatever its outcome, changes
    no lookup, under any name, on any namespace that existed before the
    clone was made. *)
Theorem store_on_clone_leaves_original fuel σ N C σ1 name v σ2 res :
  closed σ →
  KNSpace.clone N σ = (σ1, Ok C) →
  KNSpace.__setattr__ fuel C name v σ1 = (σ2, res) →
  ∀ fuel' r n, is_Some (spaces σ !! r) →
    KNSpace.getattr fuel' σ2 r n = KNSpace.getattr fuel' σ r n.
Proof.
  intros Hcl Hclone Hstore fuel' r n Hr.
  destruct (clone_spec N σ) as [E Hfresh]. rewrite E in Hclone.
  injection Hclone as <- <-.
  apply getattr_frame; [done| | |done].
  - by apply setattr_objs in Hstore as [_ ->].
  - intros r' [o' Hr'].
    rewrite (setattr_other_space _ _ _ _ _ _ _ _ Hstore) by (intros ->; congruence).
    simpl. rewrite lookup_insert_ne; [done|]. intros <-. congruence.
Qed.

(** X5: in a world where no namespace has a slot or a plain attribute
    under a name of [self_attrs], a store under another name returns
    normally, raises ReferenceError, or runs out of fuel, and nothing else,
    and leaves the world of that kind; on a namespace with [n] ancestors
    and fuel beyond [n] it returns normally. *)
Theorem store_outcome fuel r name v σ :
  regular σ → name ∉ self_attrs →
  (∀ σ' res, KNSpace.__setattr__ fuel r name v σ = (σ', res) →
     (res = Ok tt ∨ res = Raise ReferenceError ∨ res = OutOfFuel) ∧ regular σ') ∧
  (∀ n, depth σ r n → n < fuel →
     ∃ σ', KNSpace.__setattr__ fuel r name v σ = (σ', Ok tt)).
Proof.
  intros HP Hname. split.
  - intros σ' res H. split; [|by eapply store_regular].
    destruct res as [[]|ex|]; eauto. apply store_raises in H as ->. eauto.
  - intros n Hd Hlt. by eapply setattr_returns.
Qed.

(** X6: where every parent pointer leads to a namespace, a lookup on an
    existing namespace raises nothing but the AttributeError of the name
    looked up, and then the name is no class attribute and the namespace
    has neither a slot nor a plain attribute for it. *)
Theorem lookup_outcome fuel σ r name ex :
  closed σ → is_Some (spaces σ !! r) →
  KNSpace.getattr fuel σ r name = Raise ex →
  ex = AttributeError name ∧ (name ∉ class_attrs σ) ∧
  ∀ o, spaces σ !! r = Some o → props o !! name = None ∧ dict o !! name = None.
Proof.
  intros Hcl. revert r. induction fuel as [|fuel IH]; intros r [o Hr] H; [done|].
  simpl in H. rewrite Hr in H.
  destruct (EventDispatcher.__getattribute__ σ o name) eqn:Hl; [done|].
  unfold EventDispatcher.__getattribute__ in Hl.
  destruct (props o !! name) eqn:Hp; [done|]. destruct (dict o !! name) eqn:Hd; [done|].
  case_bool_decide as Hc; [done|].
  assert (ex = AttributeError name) as ->.
  { unfold KNSpace.__getattr__ in H. destruct (parent o) as [p|] eqn:Hpar.
    - eapply IH; [|done]. by eapply Hcl.
    - by simplify_eq. }
  split; [done|]. split; [done|]. intros o' Ho'. by simplify_eq.
Qed.

(** ** What every call keeps *)

Section preservation.
Context (P : world → Prop) (self : nat).
Hypothesis P_store : ∀ fuel r name v, keeps P (KNSpace.__setattr__ fuel r name v).
Hypothesis P_new : ∀ p, keeps P (KNSpace.__init__ p).
Hypothesis P_cache : ∀ σ σ', P σ → cache_only σ σ' → P σ'.
Hypothesis P_field : ∀ f σ,
  (∀ b, knspace_key (f b) = knspace_key b) → P σ → P (fst (update_mixin self f σ)).

Lemma keeps_ret {A} (a : A) : keeps P (ret a).
Proof. intros σ σ' res HP H. unfold ret in H. by simplify_eq. Qed.

Lemma keeps_raise {A} e : keeps P (raise (A:=A) e).
Proof. intros σ σ' res HP H. unfold raise in H. by simplify_eq. Qed.

Lemma keeps_bind {A B} (m : M A) (k : A → M B) :
  keeps P m → (∀ a, keeps P (k a)) → keeps P (bind m k).
Proof.
  intros Hm Hk σ σ' res HP H.
  apply bind_inv in H as [(a & σ1 & H1 & H2)|[(e & H1 & _)|[H1 _]]].
  - eapply Hk; [|done]. by eapply Hm.
  - by eapply Hm.
  - by eapply Hm.
Qed.

Lemma keeps_if {A} (c : bool) (m1 m2 : M A) :
  keeps P m1 → keeps P m2 → keeps P (if c then m1 else m2).
Proof. by destruct c. Qed.

Lemma keeps_the_mixin e : keeps P (the_mixin e).
Proof. intros σ σ' res HP H. by apply the_mixin_inv in H as [-> _]. Qed.

Lemma keeps_get_name e : keeps P (_get_name e).
Proof. apply keeps_bind; [apply keeps_the_mixin|]. intros b. apply keeps_ret. Qed.

Lemma keeps_getter fuel e : keeps P (_get_knspace fuel e).
Proof.
  intros σ σ' res HP H. eapply P_cache; [done|].
  by eapply (proj1 (getter_cache_only fuel)).
Qed.

Lemma keeps_setattr fuel k name v : keeps P (setattr fuel k name v).
Proof. destruct k; [apply P_store | apply keeps_raise]. Qed.

Lemma keeps_getattr fuel k name : keeps P (getattr fuel k name).
Proof.
  destruct k; [|apply keeps_raise]. intros σ σ' res HP H. simpl in H. by simplify_eq.
Qed.

Lemma keeps_update f :
  (∀ b, knspace_key (f b) = knspace_key b) → keeps P (update_mixin self f).
Proof.
  intros Hf σ σ' res HP H. rewrite update_mixin_eq in H. simplify_eq. by apply P_field.
Qed.

Lemma keeps_set_knspace fuel value : keeps P (_set_knspace fuel self value).
Proof.
  unfold _set_knspace.
  apply keeps_bind; [apply keeps_getter|]. intros knspace.
  apply keeps_bind; [apply keeps_get_name|]. intros name.
  apply keeps_bind; [apply keeps_if; [apply keeps_setattr|apply keeps_ret]|]. intros _.
  apply keeps_bind.
  { destruct value; [apply keeps_ret| |apply keeps_ret].
    destruct knspace; [|apply keeps_raise].
    apply keeps_bind; [apply P_new|]. intros c. apply keeps_ret. }
  intros value'.
  apply keeps_bind; [by apply keeps_update|]. intros _.
  apply keeps_bind; [by apply keeps_update|]. intros _.
  apply keeps_if; [|apply keeps_ret].
  apply keeps_bind; [apply keeps_getter|]. intros k.
  apply keeps_if; [apply keeps_raise|apply keeps_setattr].
Qed.

Lemma keeps_entity_call fuel c : keeps P (run_entity_call fuel self c).
Proof.
  destruct c as [|value|value|new_knspace|value]; simpl;
    [|apply keeps_set_knspace| | |apply keeps_set_knspace].
  - apply keeps_bind; [apply keeps_getter|]. intros _. apply keeps_ret.
  - unfold _set_name.
    apply keeps_bind; [apply keeps_the_mixin|]. intros b.
    apply keeps_bind; [apply keeps_getter|]. intros knspace.
    apply keeps_bind; [apply keeps_if; [apply keeps_setattr|apply keeps_ret]|]. intros _.
    apply keeps_bind; [by apply keeps_update|]. intros _.
    apply keeps_if; [|apply keeps_ret].
    apply keeps_if; [apply keeps_setattr|apply keeps_raise].
  - unfold __exchange_nspace.
    apply keeps_bind; [apply keeps_the_mixin|]. intros b.
    apply keeps_if; [apply keeps_ret|].
    apply keeps_bind; [by apply keeps_update|]. intros _.
    apply keeps_bind; [apply keeps_get_name|]. intros name.
    apply keeps_if; [apply keeps_ret|].
    apply keeps_bind; [apply keeps_if; [apply keeps_setattr|apply keeps_ret]|]. intros _.
    apply keeps_bind; [apply keeps_getattr|]. intros v.
    apply keeps_if; [apply keeps_setattr|apply keeps_ret].
Qed.

End preservation.

Lemma cache_only_same_tree σ τ : cache_only σ τ → same_tree σ τ.
Proof. by intros (_ & _ & _ & H). Qed.

Lemma same_tree_trans σ1 σ2 σ3 : same_tree σ1 σ2 → same_tree σ2 σ3 → same_tree σ1 σ3.
Proof.
  intros Ha Hb r. specialize (Ha r). specialize (Hb r).
  destruct (objs σ1 !! r), (objs σ2 !! r), (objs σ3 !! r); try done.
  by eapply same_object_trans.
Qed.

Lemma same_tree_objs σ τ : objs τ = objs σ → same_tree σ τ.
Proof. intros E r. rewrite E. destruct (objs σ !! r); [apply same_object_refl|done]. Qed.

Lemma same_tree_cached σ τ e v : same_tree σ τ → same_tree (cached e v σ) (cached e v τ).
Proof.
  intros H r. unfold cached, update_mixin, modify, set_objs. simpl.
  rewrite !lookup_alter. specialize (H r). case_decide as Hd; [subst r|done].
  destruct (objs σ !! e) as [o|], (objs τ !! e) as [o'|]; try done. simpl.
  destruct H as (?&?&?&H). unfold same_object.
  destruct (mixin o) eqn:E, (mixin o') eqn:E'; try done; simpl; rewrite ?E, ?E'; done.
Qed.

Lemma same_tree_the_object σ τ r :
  same_tree σ τ →
  match the_object r σ, the_object r τ with
  | (_, Ok o), (_, Ok o') => same_object o o'
  | (_, Raise e), (_, Raise e') => e = e'
  | _, _ => False
  end.
Proof.
  intros H. specialize (H r). unfold the_object.
  destruct (objs σ !! r), (objs τ !! r); done.
Qed.

(** Resolution reads the tree only: on worlds with the same tree it gives
    the same answer and leaves worlds with the same tree. *)
Lemma getter_same_tree fuel :
  (∀ e σ τ σ' res, same_tree σ τ → _get_knspace fuel e σ = (σ', res) →
     ∃ τ', _get_knspace fuel e τ = (τ', res) ∧ same_tree σ' τ') ∧
  (∀ e key cur σ τ σ' res, same_tree σ τ →
     _get_knspace_loop fuel e key cur σ = (σ', res) →
     ∃ τ', _get_knspace_loop fuel e key cur τ = (τ', res) ∧ same_tree σ' τ').
Proof.
  induction fuel as [|fuel [IH1 IH2]].
  { split; intros; simpl in *; unfold out_of_fuel in *; simplify_eq; eauto. }
  split.
  - intros e σ τ σ' res Hs H. simpl in *. unfold bind in *.
    unfold the_mixin, bind in *.
    pose proof (same_tree_the_object _ _ e Hs) as Ho.
    unfold the_object in *. specialize (Hs e) as Hse.
    destruct (objs σ !! e) as [o|] eqn:E1, (objs τ !! e) as [o'|] eqn:E2; try done.
    2:{ simplify_eq. eexists. split; [done|]. intros r. apply Hs. }
    destruct Ho as (Hl & _ & _ & Hm).
    destruct (mixin o) as [b|], (mixin o') as [b'|]; try done.
    2:{ unfold raise in *. simplify_eq. eexists. split; [done|]. intros r. apply Hs. }
    unfold ret in *. destruct Hm as (Ek & _ & Ekey). rewrite Ek, Ekey.
    destruct (_knspace b).
    { simplify_eq. eexists. split; [done|]. intros r. apply Hs. }
    destruct (negb (nonempty (knspace_key b))).
    { simpl in *. simplify_eq. eexists. split; [done|]. by apply same_tree_cached. }
    unfold getattr_link, bind, the_object, ret in *. rewrite E1 in H. rewrite E2.
    rewrite Hl. eapply IH2; [exact Hs|done].
  - intros e key cur σ τ σ' res Hs H. simpl in *. destruct cur as [p|].
    2:{ unfold bind, ret in *. simpl in *. simplify_eq. eexists. split; [done|].
        by apply same_tree_cached. }
    unfold bind in *. pose proof (same_tree_the_object _ _ p Hs) as Ho.
    unfold the_object in *. specialize (Hs p) as Hsp.
    destruct (objs σ !! p) as [o|] eqn:E1, (objs τ !! p) as [o'|] eqn:E2; try done.
    2:{ simplify_eq. eexists. split; [done|]. intros r. apply Hs. }
    destruct Ho as (Hl & Ha & _ & Hm).
    destruct (mixin o) as [b|], (mixin o') as [b'|]; try done.
    + unfold bind in *.
      destruct (_get_knspace fuel p σ) as [σ1 r1] eqn:Hg.
      destruct (IH1 _ _ _ _ _ Hs Hg) as (τ1 & Hg' & Hs1). rewrite Hg'.
      destruct r1 as [v|x|]; unfold ret in *.
      * simpl in *. simplify_eq. eexists. split; [done|]. by apply same_tree_cached.
      * simplify_eq. eauto.
      * simplify_eq. eauto.
    + unfold ret in *. rewrite Ha. destruct (knspace_attr o) as [v|].
      * simpl in *. simplify_eq. eexists. split; [done|]. by apply same_tree_cached.
      * unfold getattr_link, bind, the_object, ret in *. rewrite E1 in H. rewrite E2.
        rewrite Hl. eapply IH2; [exact Hs|done].
Qed.

Lemma same_tree_but_refl e σ : same_tree_but e σ σ.
Proof.
  intros r. destruct (objs σ !! r) as [o|]; [|done]. repeat split.
  by destruct (mixin o).
Qed.

Lemma same_tree_but_objs e σ0 σ σ' :
  objs σ' = objs σ → same_tree_but e σ0 σ → same_tree_but e σ0 σ'.
Proof. intros E H r. rewrite E. apply H. Qed.

Lemma same_tree_but_cache e σ0 σ σ' :
  same_tree_but e σ0 σ → same_tree σ σ' → same_tree_but e σ0 σ'.
Proof.
  intros Ha Hb r. specialize (Ha r). specialize (Hb r).
  destruct (objs σ0 !! r) as [o0|], (objs σ !! r) as [o|], (objs σ' !! r) as [o'|];
    try done.
  destruct Ha as (?&?&?&Ha), Hb as (?&?&?&Hb). repeat split; try congruence.
  destruct (mixin o0), (mixin o), (mixin o'); try done.
  destruct Ha as [? Ha], Hb as (?&?&?). split; [congruence|].
  intros Hne. destruct (Ha Hne). split; congruence.
Qed.

Lemma same_tree_but_field e f σ0 σ :
  (∀ b, knspace_key (f b) = knspace_key b) →
  same_tree_but e σ0 σ → same_tree_but e σ0 (fst (update_mixin e f σ)).
Proof.
  intros Hf H r. specialize (H r). unfold update_mixin, modify, set_objs. simpl.
  rewrite lookup_alter. case_decide as Hd; [subst r|done].
  destruct (objs σ0 !! e) as [o0|], (objs σ !! e) as [o|]; try done. simpl.
  destruct H as (?&?&?&H). destruct (mixin o) as [b|] eqn:E; simpl; rewrite ?E;
    repeat split; try done.
  destruct (mixin o0); [|done]. destruct H as [? _]. split; [by rewrite Hf|done].
Qed.

Lemma ns_kept_refl σ : ns_kept σ σ.
Proof. intros r o Hr. exists o. eauto using slots_grow_refl. Qed.

Lemma ns_kept_trans σ1 σ2 σ3 : ns_kept σ1 σ2 → ns_kept σ2 σ3 → ns_kept σ1 σ3.
Proof.
  intros Ha Hb r o Hr. destruct (Ha _ _ Hr) as (o2 & Hr2 & ? & ?).
  destruct (Hb _ _ Hr2) as (o3 & Hr3 & ? & ?). exists o3.
  split; [done|]. split; [congruence|]. by eapply slots_grow_trans.
Qed.

Lemma ns_kept_spaces σ σ' : spaces σ' = spaces σ → ns_kept σ σ'.
Proof. intros E r o Hr. rewrite E. exists o. eauto using slots_grow_refl. Qed.

Lemma ns_kept_put r o o' pc σ :
  spaces σ !! r = Some o → parent o' = parent o → slots_grow o o' →
  ns_kept σ (put r o' pc σ).
Proof.
  intros Hr Hp Hg r' o0 Hr'. destruct (decide (r' = r)) as [->|Hne].
  - rewrite lookup_put. simplify_eq. eauto.
  - rewrite lookup_put_ne by done. exists o0. eauto using slots_grow_refl.
Qed.

Lemma store_ns_kept fuel r name v σ σ' res :
  KNSpace.__setattr__ fuel r name v σ = (σ', res) → ns_kept σ σ'.
Proof.
  intros H. apply setattr_inv in H as [[_ ->]|(_ & o & o' & pc & Hr & -> & Hc)].
  - apply ns_kept_refl.
  - eapply ns_kept_put; [done|by eapply case_parent|by eapply case_slots_grow].
Qed.

Lemma property_ns_kept r name quiet σ σ' res :
  KNSpace.property r name quiet σ = (σ', res) → ns_kept σ σ'.
Proof.
  intros H. destruct (spaces σ !! r) as [o|] eqn:Hr.
  2:{ rewrite property_dangling in H by done. simplify_eq. apply ns_kept_refl. }
  destruct (props o !! name) as [s|] eqn:Hp.
  { rewrite (property_existing _ _ _ _ _ _ Hr Hp) in H. simplify_eq. apply ns_kept_refl. }
  destruct quiet.
  - rewrite (property_create _ _ _ _ Hr Hp) in H. simplify_eq.
    eapply ns_kept_put; [done|done|]. split; [simpl; set_solver|].
    intros n s Hs. exists s. split; [|done]. simpl.
    rewrite lookup_insert_ne; [done|]. intros ->. congruence.
  - rewrite (property_raise _ _ _ _ Hr Hp) in H. simplify_eq. apply ns_kept_refl.
Qed.

Lemma new_ns_kept p σ σ' r :
  KNSpace.__init__ p σ = (σ', Ok r) → ns_kept σ σ'.
Proof.
  intros H. unfold KNSpace.__init__, bind, gets, modify, ret in H. simplify_eq.
  intros r' o Hr. exists o. split; [|eauto using slots_grow_refl]. simpl.
  rewrite lookup_insert_ne; [done|]. intros <-.
  pose proof (is_fresh (dom (spaces σ))) as Hf. apply Hf, elem_of_dom. eauto.
Qed.

Lemma ns_step_ns_kept σ σ' : ns_step σ σ' → ns_kept σ σ'.
Proof.
  intros (fuel & r & [n v|n q] & res & H); simpl in H.
  - by eapply store_ns_kept.
  - apply bind_inv in H as [(a & σ1 & H1 & H2)|[(e & H1 & _)|[H1 _]]];
      try by eapply property_ns_kept.
    unfold ret in H2. simplify_eq. by eapply property_ns_kept.
Qed.

Lemma entity_call_ns_kept fuel self c σ σ' res :
  run_entity_call fuel self c σ = (σ', res) → ns_kept σ σ'.
Proof.
  intros H.
  eapply (keeps_entity_call (ns_kept σ) self); [..|apply ns_kept_refl|exact H].
  - intros f r n v τ τ' res' HP Hs. eapply ns_kept_trans; [done|by eapply store_ns_kept].
  - intros p τ τ' res' HP Hs.
    destruct res' as [r| |];
      [eapply ns_kept_trans; [done|by eapply new_ns_kept]| |];
      unfold KNSpace.__init__, bind, gets, modify, ret in Hs; simplify_eq.
  - intros τ τ' HP (_ & E & _). eapply ns_kept_trans; [done|by apply ns_kept_spaces].
  - intros f τ _ HP. eapply ns_kept_trans; [done|by apply ns_kept_spaces].
Qed.

Lemma any_step_ns_kept σ σ' : any_step σ σ' → ns_kept σ σ'.
Proof.
  intros [H|p r H|fuel self c res H];
    eauto using ns_step_ns_kept, new_ns_kept, entity_call_ns_kept.
Qed.

Lemma depth_ns_kept σ σ' r n : ns_kept σ σ' → depth σ r n → depth σ' r n.
Proof.
  intros Hk. induction 1 as [r o Hr Hp|r o p n Hr Hp _ IH];
    destruct (Hk _ _ Hr) as (o' & Hr' & Hp' & _).
  - eapply depth_root; [done|by rewrite Hp'].
  - eapply depth_step; [done|by rewrite Hp'|done].
Qed.

Lemma keeps_bind_ok {A B} (P : world → Prop) (R : A → Prop)
    (m : M A) (k : A → M B) :
  keeps P m → (∀ σ σ' a, P σ → m σ = (σ', Ok a) → R a) →
  (∀ a, R a → keeps P (k a)) → keeps P (bind m k).
Proof.
  intros Hm HR Hk σ σ' res HP H.
  apply bind_inv in H as [(a & σ1 & H1 & H2)|[(e & H1 & _)|[H1 _]]].
  - eapply Hk; [by eapply HR| |done]. by eapply Hm.
  - by eapply Hm.
  - by eapply Hm.
Qed.

Lemma name_is_objs e n σ σ' : objs σ' = objs σ → name_is e n σ → name_is e n σ'.
Proof. intros E H ob b. rewrite E. apply H. Qed.

Lemma name_is_cache e n σ σ' : cache_only σ σ' → name_is e n σ → name_is e n σ'.
Proof.
  intros (_ & _ & _ & Hc) H ob' b' Ho' Hm'. specialize (Hc e). rewrite Ho' in Hc.
  destruct (objs σ !! e) as [ob|] eqn:Ho; [|done].
  destruct Hc as (_ & _ & _ & Hx). rewrite Hm' in Hx.
  destruct (mixin ob) as [b|] eqn:Hm; [|done]. destruct Hx as (_ & -> & _).
  by eapply H.
Qed.

Lemma name_is_update e n f σ :
  (∀ b, _name (f b) = _name b) → name_is e n σ →
  name_is e n (fst (update_mixin e f σ)).
Proof.
  intros Hf H ob' b' Ho' Hm'.
  destruct (objs σ !! e) as [ob|] eqn:Ho.
  2:{ unfold update_mixin, modify, set_objs in Ho'. simpl in Ho'.
      rewrite lookup_alter, decide_True, Ho in Ho' by done. done. }
  destruct (mixin ob) as [b|] eqn:Hm.
  - rewrite (update_mixin_lookup _ f _ _ _ Ho Hm) in Ho'. simplify_eq.
    simpl in Hm'. simplify_eq. rewrite Hf. by eapply H.
  - unfold update_mixin, modify, set_objs in Ho'. simpl in Ho'.
    rewrite lookup_alter, decide_True, Ho in Ho' by done. simpl in Ho'.
    rewrite Hm in Ho'. by simplify_eq.
Qed.

Section named_preservation.
Context (P : world → Prop) (Q : string → Prop) (self : nat) (n0 : string).
Hypothesis P_store : ∀ fuel r name v,
  Q name → keeps P (KNSpace.__setattr__ fuel r name v).
Hypothesis P_new : ∀ p, keeps P (KNSpace.__init__ p).
Hypothesis P_cache : ∀ σ σ', P σ → cache_only σ σ' → P σ'.
Hypothesis P_field : ∀ f σ,
  (∀ b, knspace_key (f b) = knspace_key b) → P σ → P (fst (update_mixin self f σ)).
Hypothesis Q_n0 : Q n0.

Lemma named_the_mixin : keeps (named P self n0) (the_mixin self).
Proof. intros σ σ' res HP H. by apply the_mixin_inv in H as [-> _]. Qed.

Lemma named_mixin_name σ σ' b :
  named P self n0 σ → the_mixin self σ = (σ', Ok b) → _name b = n0.
Proof.
  intros [_ Hn] H. apply the_mixin_inv in H as [_ (ob & Ho & Hm)]. by eapply Hn.
Qed.

Lemma named_get_name : keeps (named P self n0) (_get_name self).
Proof. apply keeps_bind; [apply named_the_mixin|]. intros b. apply keeps_ret. Qed.

Lemma named_get_name_ok σ σ' a :
  named P self n0 σ → _get_name self σ = (σ', Ok a) → a = n0.
Proof.
  intros HP H. unfold _get_name in H. apply bind_ok_inv in H as (b & σ1 & Hb & H).
  unfold ret in H. simplify_eq. by eapply named_mixin_name.
Qed.

Lemma named_getter fuel : keeps (named P self n0) (_get_knspace fuel self).
Proof.
  intros σ σ' res [HP Hn] H.
  pose proof (proj1 (getter_cache_only fuel) _ _ _ _ H) as Hc.
  split; [by eapply P_cache|by eapply name_is_cache].
Qed.

Lemma named_setattr fuel k name v :
  Q name → keeps (named P self n0) (setattr fuel k name v).
Proof.
  intros HQ. destruct k as [r|]; [|apply keeps_raise].
  intros σ σ' res [HP Hn] H. simpl in H. split; [by eapply P_store|].
  eapply name_is_objs; [|done]. by apply setattr_objs in H as [? _].
Qed.

Lemma plain_setattr fuel k name v : Q name → keeps P (setattr fuel k name v).
Proof. intros HQ. destruct k as [r|]; [by apply P_store|apply keeps_raise]. Qed.

Lemma named_getattr fuel k name : keeps (named P self n0) (getattr fuel k name).
Proof.
  destruct k; [|apply keeps_raise]. intros σ σ' res HP H. simpl in H. by simplify_eq.
Qed.

Lemma named_new p : keeps (named P self n0) (KNSpace.__init__ p).
Proof.
  intros σ σ' res [HP Hn] H. split; [by eapply P_new|].
  eapply name_is_objs; [|done].
  unfold KNSpace.__init__, bind, gets, modify, ret in H. by simplify_eq.
Qed.

Lemma named_update f :
  (∀ b, knspace_key (f b) = knspace_key b) → (∀ b, _name (f b) = _name b) →
  keeps (named P self n0) (update_mixin self f).
Proof.
  intros Hk Hf σ σ' res [HP Hn] H. rewrite update_mixin_eq in H.
  injection H as <- _. split; [by apply P_field|by apply name_is_update].
Qed.

Lemma named_set_knspace fuel value :
  keeps (named P self n0) (_set_knspace fuel self value).
Proof.
  unfold _set_knspace.
  apply keeps_bind; [apply named_getter|]. intros knspace.
  apply (keeps_bind_ok (named P self n0) (λ a, a = n0)); [apply named_get_name| |].
  { intros σ σ' a. apply named_get_name_ok. }
  intros name ->.
  apply keeps_bind; [apply keeps_if; [by apply named_setattr|apply keeps_ret]|]. intros _.
  apply keeps_bind.
  { destruct value; [apply keeps_ret| |apply keeps_ret].
    destruct knspace; [|apply keeps_raise].
    apply keeps_bind; [apply named_new|]. intros c. apply keeps_ret. }
  intros value'.
  apply keeps_bind; [by apply named_update|]. intros _.
  apply keeps_bind; [by apply named_update|]. intros _.
  apply keeps_if; [|apply keeps_ret].
  apply keeps_bind; [apply named_getter|]. intros k.
  apply keeps_if; [apply keeps_raise|by apply named_setattr].
Qed.

Lemma named_entity_call fuel c :
  match c with SetName value => Q value | _ => True end →
  ∀ σ σ' res, P σ → name_is self n0 σ →
    run_entity_call fuel self c σ = (σ', res) → P σ'.
Proof.
  intros Hc σ σ' res HP Hn H.
  destruct c as [|value|value|new_knspace|value]; simpl in H.
  - refine (proj1 (keeps_bind (named P self n0) _ _ (named_getter fuel) _
                    σ σ' res (conj HP Hn) H)).
    intros _. apply keeps_ret.
  - by apply (named_set_knspace fuel value σ σ' res (conj HP Hn) H).
  - unfold _set_name in H.
    apply bind_inv in H as [(b & σ0 & Hb & H)|[(e & Hb & _)|[Hb _]]];
      try by apply the_mixin_inv in Hb as [-> _].
    assert (_name b = n0) as Hb0 by (by eapply (named_mixin_name σ σ0 b (conj HP Hn))).
    apply the_mixin_inv in Hb as [-> _].
    apply bind_inv in H as [(k & σ1 & Hg & H)|[(e & Hg & _)|[Hg _]]];
      try by eapply (proj1 (named_getter fuel _ _ _ (conj HP Hn) Hg)).
    pose proof (proj1 (named_getter fuel _ _ _ (conj HP Hn) Hg)) as HP1.
    refine (keeps_bind P _ _ _ _ σ1 σ' res HP1 H).
    { apply keeps_if; [|apply keeps_ret]. apply plain_setattr. by rewrite Hb0. }
    intros _. apply keeps_bind.
    { intros τ τ' r' HPτ Hτ. rewrite update_mixin_eq in Hτ. injection Hτ as <- _.
      by apply P_field. }
    intros _. apply keeps_if; [|apply keeps_ret].
    apply keeps_if; [by apply plain_setattr|apply keeps_raise].
  - unfold __exchange_nspace in H.
    refine (proj1 (keeps_bind (named P self n0) _ _ _ _ σ σ' res (conj HP Hn) H));
      [apply named_the_mixin|]. intros b.
    apply keeps_if; [apply keeps_ret|].
    apply keeps_bind; [by apply named_update|]. intros _.
    apply (keeps_bind_ok (named P self n0) (λ a, a = n0)); [apply named_get_name| |].
    { intros τ τ' a. apply named_get_name_ok. }
    intros name ->.
    apply keeps_if; [apply keeps_ret|].
    apply keeps_bind; [apply keeps_if; [by apply named_setattr|apply keeps_ret]|].
    intros _.
    apply keeps_bind; [apply named_getattr|]. intros v.
    apply keeps_if; [by apply named_setattr|apply keeps_ret].
  - by apply (named_set_knspace fuel value σ σ' res (conj HP Hn) H).
Qed.

End named_preservation.

Lemma empty_name_plain : "" ∉ self_attrs.
Proof. refine (proj1 (bool_decide_eq_true _) _). vm_compute. reflexivity. Qed.

Lemma entity_call_regular fuel self c σ σ' res :
  plain_entity_call σ self c →
  run_entity_call fuel self c σ = (σ', res) → regular σ → regular σ'.
Proof.
  intros [Hname Hc] H HP.
  assert (∃ n0, (n0 ∉ self_attrs) ∧ name_is self n0 σ) as (n0 & Hn0 & Hn).
  { destruct (objs σ !! self) as [ob|] eqn:Ho.
    2:{ exists "". split; [apply empty_name_plain|]. intros ob b ?. congruence. }
    destruct (mixin ob) as [b|] eqn:Hm.
    2:{ exists "". split; [apply empty_name_plain|]. intros ob' b' ??. congruence. }
    exists (_name b). split; [by eapply Hname|]. intros ob' b' ??. congruence. }
  eapply (named_entity_call regular (λ n, n ∉ self_attrs) self n0);
    [..|exact HP|exact Hn|exact H].
  - intros f r n v Hq τ τ' res' HPτ Hs. by eapply store_regular.
  - intros p τ τ' res' HPτ Hs. by eapply new_regular.
  - intros τ τ' HPτ (_ & E & _). by eapply regular_spaces.
  - intros f τ _ HPτ. by eapply regular_spaces.
  - done.
  - by destruct c.
Qed.

Lemma plain_step_any_step σ σ' : plain_step σ σ' → any_step σ σ'.
Proof.
  intros [H|p r H|fuel self c res _ H].
  - by apply step_ns, plain_ns_step_ns_step.
  - by eapply step_new.
  - by eapply step_entity.
Qed.

Lemma plain_step_regular σ σ' : plain_step σ σ' → regular σ → regular σ'.
Proof.
  intros [(fuel & r & c & res & Hn & H)|p r H|fuel self c res Hc H] HP.
  - by eapply run_call_regular.
  - by eapply new_regular.
  - by eapply entity_call_regular.
Qed.

(** X7: in a world where no namespace has a slot or a plain attribute
    under a name of [self_attrs], no sequence of calls under other names
    (stores, property requests, constructions of namespaces, operations on
    entities whose names are other names) leaves that kind of world,
    removes a namespace, changes a parent, removes a slot, changes the
    descriptor of a slot or shrinks an applied set; so every chain of
    ancestors is kept and lookups on it keep returning. *)
Theorem namespaces_are_kept σ σ' :
  regular σ → rtc plain_step σ σ' →
  regular σ' ∧ ns_kept σ σ' ∧
  (∀ r n, depth σ r n → depth σ' r n) ∧
  (∀ r n name fuel, depth σ r n → n < fuel →
     (∃ v, KNSpace.getattr fuel σ' r name = Ok v) ∨
     KNSpace.getattr fuel σ' r name = Raise (AttributeError name)).
Proof.
  intros HP H.
  assert (regular σ' ∧ ns_kept σ σ') as [HP' Hk].
  { induction H as [|σ1 σ2 σ3 Hs _ IH]; [split; [done|apply ns_kept_refl]|].
    destruct (IH (plain_step_regular _ _ Hs HP)) as [? ?]. split; [done|].
    eapply ns_kept_trans; [by apply any_step_ns_kept, plain_step_any_step|done]. }
  split; [done|]. split; [done|]. split; [intros r n; by apply depth_ns_kept|].
  intros r n name fuel Hd Hlt. eapply getattr_returns; [|done]. by eapply depth_ns_kept.
Qed.

(** X8: an operation on one entity (its construction, reading or assigning
    its namespace, assigning its name, reacting to a changed namespace),
    whatever its outcome, creates and removes no object, changes no links,
    no [knspace] attribute, no weak-handle flag and no [knspace_key], and
    leaves the name and the explicit namespace of every other entity as
    they were. *)
Theorem entity_call_leaves_others fuel self c σ σ' res :
  run_entity_call fuel self c σ = (σ', res) → same_tree_but self σ σ'.
Proof.
  intros H.
  eapply (keeps_entity_call (same_tree_but self σ) self);
    [..|apply same_tree_but_refl|exact H].
  - intros f r n v τ τ' res' HP Hs. eapply same_tree_but_objs; [|done].
    by apply setattr_objs in Hs as [? _].
  - intros p τ τ' res' HP Hs. eapply same_tree_but_objs; [|done].
    unfold KNSpace.__init__, bind, gets, modify, ret in Hs. by simplify_eq.
  - intros τ τ' HP Hc. eapply same_tree_but_cache; [done|by apply cache_only_same_tree].
  - intros f τ Hf HP. by apply same_tree_but_field.
Qed.

Lemma calls_ns_kept σ σ' : rtc any_step σ σ' → ns_kept σ σ'.
Proof.
  induction 1 as [|σ1 σ2 σ3 Hs _ IH]; [apply ns_kept_refl|].
  eapply ns_kept_trans; [by apply any_step_ns_kept|done].
Qed.

Lemma property_objs r name quiet σ σ' res :
  KNSpace.property r name quiet σ = (σ', res) →
  objs σ' = objs σ ∧ class_attrs σ' = class_attrs σ.
Proof.
  intros H. destruct (spaces σ !! r) as [o|] eqn:Hr.
  2:{ rewrite property_dangling in H by done. by simplify_eq. }
  destruct (props o !! name) as [s|] eqn:Hp.
  { rewrite (property_existing _ _ _ _ _ _ Hr Hp) in H. by simplify_eq. }
  destruct quiet.
  - rewrite (property_create _ _ _ _ Hr Hp) in H. by simplify_eq.
  - rewrite (property_raise _ _ _ _ Hr Hp) in H. by simplify_eq.
Qed.

Lemma ns_step_objs σ σ' : ns_step σ σ' → objs σ' = objs σ.
Proof.
  intros (fuel & r & [n v|n q] & res & H); simpl in H.
  - by apply setattr_objs in H as [? _].
  - apply bind_inv in H as [(a & σ1 & H1 & H2)|[(e & H1 & _)|[H1 _]]];
      try by apply property_objs in H1 as [? _].
    unfold ret in H2. simplify_eq. by apply property_objs in H1 as [? _].
Qed.

Lemma calls_objs σ σ' : rtc ns_step σ σ' → objs σ' = objs σ.
Proof.
  induction 1 as [|σ1 σ2 σ3 Hs _ IH]; [done|].
  rewrite IH. by apply ns_step_objs.
Qed.

(** X9: resolving the namespace of an entity changes nothing but cached
    last namespaces; resolving again, also after any stores and property
    requests on namespaces, gives the same namespace. *)
Theorem resolution_is_stable fuel e σ σ1 v σ2 :
  _get_knspace fuel e σ = (σ1, Ok v) →
  rtc ns_step σ1 σ2 →
  cache_only σ σ1 ∧
  ∃ σ3, _get_knspace fuel e σ2 = (σ3, Ok v) ∧ cache_only σ2 σ3.
Proof.
  intros Hg Hcalls.
  pose proof (proj1 (getter_cache_only fuel) _ _ _ _ Hg) as Hc.
  split; [done|].
  assert (same_tree σ σ2) as Ht.
  { eapply same_tree_trans; [by apply cache_only_same_tree|].
    by apply same_tree_objs, calls_objs. }
  destruct (proj1 (getter_same_tree fuel) _ _ _ _ _ Ht Hg) as (σ3 & Hg2 & _).
  exists σ3. split; [done|]. by eapply (proj1 (getter_cache_only fuel)).
Qed.

(** X10: the descriptor a quiet property request returns is the one every
    later request for that name on that namespace returns, quiet or not,
    whatever calls on namespaces and entities happen in between; the later
    request changes nothing. *)
Theorem property_descriptor_survives r name σ σ1 σ2 p :
  KNSpace.property r name true σ = (σ1, Ok p) →
  rtc any_step σ1 σ2 →
  ∀ quiet, KNSpace.property r name quiet σ2 = (σ2, Ok p).
Proof.
  intros H Hlater quiet.
  assert (∃ o1 s1, spaces σ1 !! r = Some o1 ∧ props o1 !! name = Some s1 ∧
                   descriptor s1 = p) as (o1 & s1 & Hr1 & Hp1 & <-).
  { destruct (spaces σ !! r) as [o|] eqn:Hr.
    2:{ rewrite property_dangling in H by done. by simplify_eq. }
    destruct (props o !! name) as [s|] eqn:Hp.
    - rewrite (property_existing _ _ _ _ _ _ Hr Hp) in H. simplify_eq. eauto.
    - rewrite (property_create _ _ _ _ Hr Hp) in H. simplify_eq.
      eexists _, _. split; [apply lookup_put|]. simpl. by rewrite lookup_insert_eq. }
  destruct (calls_ns_kept _ _ Hlater _ _ Hr1) as (o2 & Hr2 & _ & _ & Hd).
  destruct (Hd _ _ Hp1) as (s2 & Hp2 & <-).
  by eapply property_existing.
Qed.

Lemma step_off_slot C name σ σ' o s :
  step_off C name σ σ' → spaces σ !! C = Some o → props o !! name = Some s →
  ∃ o', spaces σ' !! C = Some o' ∧ props o' !! name = Some s.
Proof.
  intros (fuel & r & c & res & Hoff & H) HC Hs. destruct c as [n v|n q]; simpl in *.
  - apply setattr_inv in H as [[_ ->]|(_ & o0 & o' & pc & Hr & -> & Hc)]; [eauto|].
    destruct (decide (r = C)) as [->|Hne].
    + rewrite lookup_put. simplify_eq. exists o'. split; [done|].
      rewrite (case_props_other Hc name); [done|]. by destruct Hoff.
    + rewrite lookup_put_ne by done. eauto.
  - assert (∃ a, KNSpace.property r n q σ = (σ', a)) as [a Hprop].
    { apply bind_inv in H as [(a & σ1 & H1 & H2)|[(e & H1 & _)|[H1 _]]]; eauto.
      unfold ret in H2. simplify_eq. eauto. }
    clear H. destruct (spaces σ !! r) as [o0|] eqn:Hr.
    2:{ rewrite property_dangling in Hprop by done. simplify_eq. eauto. }
    destruct (props o0 !! n) as [s0|] eqn:Hp.
    { rewrite (property_existing _ _ _ _ _ _ Hr Hp) in Hprop. simplify_eq. eauto. }
    destruct q.
    + rewrite (property_create _ _ _ _ Hr Hp) in Hprop. simplify_eq.
      destruct (decide (r = C)) as [->|Hne].
      * rewrite lookup_put. simplify_eq. eexists. split; [done|]. simpl.
        rewrite lookup_insert_ne; [done|]. by destruct Hoff.
      * rewrite lookup_put_ne by done. eauto.
    + rewrite (property_raise _ _ _ _ Hr Hp) in Hprop. simplify_eq. eauto.
Qed.

Lemma steps_off_slot C name σ σ' :
  rtc (step_off C name) σ σ' →
  ∀ o s, spaces σ !! C = Some o → props o !! name = Some s →
  ∃ o', spaces σ' !! C = Some o' ∧ props o' !! name = Some s.
Proof.
  induction 1 as [|σ1 σ2 σ3 Hs _ IH]; intros o s HC Hp; [eauto|].
  destruct (step_off_slot _ _ _ _ _ _ Hs HC Hp) as (o2 & HC2 & Hp2). eauto.
Qed.

Lemma getattr_slot fuel σ r o name s :
  spaces σ !! r = Some o → props o !! name = Some s →
  KNSpace.getattr (S fuel) σ r name = Ok (slot_value s).
Proof.
  intros Hr Hp. eapply getattr_local; [done|].
  unfold EventDispatcher.__getattribute__. by rewrite Hp.
Qed.

(** C10, as amended: in a world where no namespace has a slot or a plain
    attribute under a name of [self_attrs], a quiet property request for
    another name the namespace [C] has no slot for builds the slot on [C],
    holding None, without reading or changing any other namespace; from
    then on [C] reads the name as None, whatever calls are made on other
    namespaces or on [C] under other names; and after any calls at all,
    on namespaces and on entities, the slot is still there with its
    descriptor and answers the lookup on [C]. *)
Theorem property_request_shadows σ C N oc name :
  regular σ → name ∉ self_attrs →
  spaces σ !! C = Some oc → parent oc = Some N → props oc !! name = None →
  ∃ σ' oc',
    KNSpace.property C name true σ = (σ', Ok (MkProperty (prop_count σ) VNone)) ∧
    spaces σ' !! C = Some oc' ∧
    props oc' !! name = Some (Slot (MkProperty (prop_count σ) VNone) VNone) ∧
    name ∈ has_applied oc' ∧
    (∀ r, r ≠ C → spaces σ' !! r = spaces σ !! r) ∧
    regular σ' ∧
    (∀ f, KNSpace.getattr (S f) σ' C name = Ok VNone) ∧
    (∀ σ2, rtc (step_off C name) σ' σ2 →
       ∀ f, KNSpace.getattr (S f) σ2 C name = Ok VNone) ∧
    (∀ σ2, rtc any_step σ' σ2 →
       ∃ o2 s2, spaces σ2 !! C = Some o2 ∧ props o2 !! name = Some s2 ∧
         descriptor s2 = MkProperty (prop_count σ) VNone ∧
         ∀ f, KNSpace.getattr (S f) σ2 C name = Ok (slot_value s2)).
Proof.
  intros Hreg Hname HC HN Hp.
  pose proof (property_create _ _ _ _ HC Hp) as Hprop.
  set (s0 := Slot (MkProperty (prop_count σ) VNone) VNone) in *.
  set (oc' := add_applied name (set_props <[name := s0]> oc)) in *.
  set (σ' := put C oc' (S (prop_count σ)) σ) in *.
  assert (HC' : spaces σ' !! C = Some oc') by apply lookup_put.
  assert (Hp' : props oc' !! name = Some s0) by (simpl; apply lookup_insert_eq).
  exists σ', oc'. split; [exact Hprop|].
  split; [done|]. split; [done|].
  split; [simpl; set_solver|]. split; [intros r Hr; by apply lookup_put_ne|].
  split; [by eapply property_regular|].
  split; [|split].
  - intros f. apply (getattr_slot f σ' C oc' name s0 HC' Hp').
  - intros σ2 Hlater f.
    destruct (steps_off_slot _ _ _ _ Hlater _ _ HC' Hp') as (o2 & HC2 & Hp2).
    apply (getattr_slot f σ2 C o2 name s0 HC2 Hp2).
  - intros σ2 Hlater.
    destruct (calls_ns_kept _ _ Hlater _ _ HC') as (o2 & HC2 & _ & _ & Hd).
    destruct (Hd name _ Hp') as (s2 & Hp2 & Hdesc).
    exists o2, s2. split; [done|]. split; [done|]. split; [done|].
    intros f. by eapply getattr_slot.
Qed.

Lemma applied_spaces σ σ' :
  spaces σ' = spaces σ → applied_have_slots σ → applied_have_slots σ'.
Proof. intros E H r o n. rewrite E. apply H. Qed.

Lemma applied_put r o o' pc σ :
  spaces σ !! r = Some o →
  (∀ n, n ∈ has_applied o' → n ∈ has_applied o ∨ is_Some (props o' !! n)) →
  (∀ n, is_Some (props o !! n) → is_Some (props o' !! n)) →
  applied_have_slots σ → applied_have_slots (put r o' pc σ).
Proof.
  intros Hr Ha Hp H r' o0 n Hr' Hn. destruct (decide (r' = r)) as [->|Hne].
  - rewrite lookup_put in Hr'. simplify_eq.
    destruct (Ha _ Hn) as [Hin|?]; [|done]. apply Hp. by eapply H.
  - rewrite lookup_put_ne in Hr' by done. by eapply H.
Qed.

Lemma store_applied fuel r name v σ σ' res :
  KNSpace.__setattr__ fuel r name v σ = (σ', res) →
  applied_have_slots σ → applied_have_slots σ'.
Proof.
  intros H HP. apply setattr_inv in H as [[_ ->]|(_ & o & o' & pc & Hr & -> & Hc)]; [done|].
  eapply applied_put; [done| | |done].
  - intros n Hmem. destruct Hc as [w Hp _|n' Hp _|s Hp _|s Hp _];
      unfold add_applied, set_props, set_dict in *; simpl in *; try (by left).
    all: destruct (decide (n = name)) as [Heq|Hne];
      [right; rewrite Heq; by rewrite lookup_insert_eq|];
      left; apply elem_of_union in Hmem as [Hs|Hs];
      [by apply elem_of_singleton in Hs|done].
  - intros n [s Hs]. destruct (case_descriptor Hc n s Hs) as (s' & ? & _). eauto.
Qed.

Lemma property_applied r name quiet σ σ' res :
  KNSpace.property r name quiet σ = (σ', res) →
  applied_have_slots σ → applied_have_slots σ'.
Proof.
  intros H HP. destruct (spaces σ !! r) as [o|] eqn:Hr.
  2:{ rewrite property_dangling in H by done. by simplify_eq. }
  destruct (props o !! name) as [s|] eqn:Hp.
  { rewrite (property_existing _ _ _ _ _ _ Hr Hp) in H. by simplify_eq. }
  destruct quiet.
  - rewrite (property_create _ _ _ _ Hr Hp) in H. simplify_eq.
    eapply applied_put; [done| | |done].
    + intros n Hmem. simpl in *. destruct (decide (n = name)) as [Heq|Hne];
        [right; rewrite Heq; by rewrite lookup_insert_eq|];
      left; apply elem_of_union in Hmem as [Hs|Hs];
      [by apply elem_of_singleton in Hs|done].
    + intros n [s Hs]. simpl. destruct (decide (n = name)) as [->|Hne];
        [by rewrite lookup_insert_eq|by rewrite lookup_insert_ne].
  - rewrite (property_raise _ _ _ _ Hr Hp) in H. by simplify_eq.
Qed.

Lemma new_applied p σ σ' res :
  KNSpace.__init__ p σ = (σ', res) →
  applied_have_slots σ → applied_have_slots σ'.
Proof.
  intros H HP. unfold KNSpace.__init__, bind, gets, modify, ret in H. simplify_eq.
  intros r o n Hr Hn. simpl in Hr.
  destruct (decide (r = fresh (dom (spaces σ)))) as [->|Hne].
  - rewrite lookup_insert_eq in Hr. simplify_eq. simpl in Hn. set_solver.
  - rewrite lookup_insert_ne in Hr by done. by eapply HP.
Qed.

Lemma any_step_applied σ σ' :
  any_step σ σ' → applied_have_slots σ → applied_have_slots σ'.
Proof.
  intros [(fuel & r & [n v|n q] & res & H)|p r H|fuel self c res H] HP.
  - by eapply store_applied.
  - simpl in H. apply bind_inv in H as [(a & σ1 & H1 & H2)|[(e & H1 & _)|[H1 _]]];
      try by eapply property_applied.
    unfold ret in H2. simplify_eq. by eapply property_applied.
  - by eapply new_applied.
  - eapply (keeps_entity_call applied_have_slots self); [..|exact HP|exact H].
    + intros f r n v τ τ' res' HP' Hs. by eapply store_applied.
    + intros p τ τ' res' HP' Hs. by eapply new_applied.
    + intros τ τ' HP' (_ & E & _). by eapply applied_spaces.
    + intros f τ _ HP'. by eapply applied_spaces.
Qed.

(** X11: if every name recorded as applied has a slot, this is still so
    after any sequence of calls. *)
Theorem applied_names_have_slots σ σ' :
  applied_have_slots σ → rtc any_step σ σ' → applied_have_slots σ'.
Proof.
  intros HP H. induction H as [|σ1 σ2 σ3 Hs _ IH]; [done|].
  apply IH. by eapply any_step_applied.
Qed.

(** ** Assigning the namespace and the name of an entity *)

Lemma set_knspace_ok_inv fuel e value σ σ' :
  _set_knspace fuel e value σ = (σ', Ok tt) →
  ∃ old σ1 ob1 b1 σ2 value' σ3,
    _get_knspace fuel e σ = (σ1, Ok old) ∧
    objs σ1 !! e = Some ob1 ∧ mixin ob1 = Some b1 ∧
    (if nonempty (_name b1) && truthy old
     then setattr fuel old (_name b1) VNone else ret tt) σ1 = (σ2, Ok tt) ∧
    assigned value old σ2 = Some (value', σ3) ∧
    (if nonempty (_name b1) then
       knspace <- _get_knspace fuel e ;;
       if negb (truthy knspace) then raise (ValueError_name (_name b1))
       else setattr fuel knspace (_name b1) (VObj e)
     else ret tt) (assign e value' σ3) = (σ', Ok tt).
Proof.
  intros H. unfold _set_knspace in H.
  apply bind_ok_inv in H as (old & σ1 & Hg & H).
  apply bind_ok_inv in H as (name & σ1' & Hn & H).
  unfold _get_name in Hn. apply bind_ok_inv in Hn as (b1 & σ1'' & Hb & Hn).
  apply the_mixin_inv in Hb as [-> (ob1 & Ho1 & Hm1)].
  unfold ret in Hn. injection Hn as <- <-.
  apply bind_ok_inv in H as (u & σ2 & Hclear & H). destruct u.
  apply bind_ok_inv in H as (value' & σ3 & Hv & H).
  apply bind_ok_inv in H as (u & σ4 & Hu1 & H). destruct u.
  apply bind_ok_inv in H as (u & σ5 & Hu2 & H). destruct u.
  rewrite update_mixin_eq in Hu1. rewrite update_mixin_eq in Hu2. simplify_eq.
  exists old, σ1, ob1, b1, σ2, value', σ3. repeat (split; [done|]). split; [|done].
  destruct value as [| |r]; simpl; unfold ret in Hv; simplify_eq; try done.
  destruct old as [N|]; [|done].
  apply bind_ok_inv in Hv as (c & σ3' & Hc & Hv). unfold ret in Hv. simplify_eq.
  unfold KNSpace.clone, KNSpace.__init__, bind, gets, modify, ret in Hc. by simplify_eq.
Qed.

Lemma clear_objs fuel (c : bool) old name σ σ' res :
  (if c then setattr fuel old name VNone else ret tt) σ = (σ', res) →
  objs σ' = objs σ ∧ class_attrs σ' = class_attrs σ ∧ ns_kept σ σ'.
Proof.
  destruct c; [|unfold ret; intros; simplify_eq; eauto using ns_kept_refl].
  destruct old as [N|]; simpl; [|unfold raise; intros; simplify_eq; eauto using ns_kept_refl].
  intros H. destruct (setattr_objs _ _ _ _ _ _ _ H). eauto using store_ns_kept.
Qed.

Lemma assigned_objs value old σ v σ' :
  assigned value old σ = Some (v, σ') →
  objs σ' = objs σ ∧ class_attrs σ' = class_attrs σ ∧ ns_kept σ σ'.
Proof.
  destruct value as [| |r]; simpl; intros H; simplify_eq; eauto using ns_kept_refl.
  destruct old as [N|]; simplify_eq. split; [done|]. split; [done|].
  eapply (new_ns_kept (Some N)). reflexivity.
Qed.

Lemma assign_lookup e v ob b σ :
  objs σ !! e = Some ob → mixin ob = Some b →
  objs (assign e v σ) !! e = Some (set_mixin (with_knspace v (with_last v b)) ob).
Proof.
  intros Ho Hm. unfold assign.
  rewrite (update_mixin_lookup _ _ _ _ _ (update_mixin_lookup _ (with_last v) _ _ _ Ho Hm) eq_refl).
  done.
Qed.

Lemma assign_spaces e v σ : spaces (assign e v σ) = spaces σ.
Proof. done. Qed.

(** X12: in a world where no namespace has a slot or a plain attribute
    under a name of [self_attrs], and for an entity whose name is no such
    name: after [knspace = value] returned, the world is still of that kind
    and the entity holds what was assigned: None for None, the given
    namespace for a namespace, and for 'clone' a namespace that did not
    exist before and whose parent is the namespace the entity had; the
    cache holds an assigned namespace, and reading [knspace] returns it
    without changing anything. *)
Theorem set_knspace_stores fuel e value σ σ' ob0 b0 :
  regular σ →
  objs σ !! e = Some ob0 → mixin ob0 = Some b0 → _name b0 ∉ self_attrs →
  _set_knspace fuel e value σ = (σ', Ok tt) →
  regular σ' ∧
  ∃ old σ1 ob b,
    _get_knspace fuel e σ = (σ1, Ok old) ∧
    objs σ' !! e = Some ob ∧ mixin ob = Some b ∧
    match value with
    | ArgNone => _knspace b = None
    | ArgSpace r => _knspace b = Some r ∧ last_knspace b = Some r
    | ArgClone =>
      ∃ N C oc, old = Some N ∧ _knspace b = Some C ∧ last_knspace b = Some C ∧
        spaces σ !! C = None ∧ spaces σ' !! C = Some oc ∧ parent oc = Some N
    end ∧
    ∀ ns, _knspace b = Some ns →
      ∀ fuel', _get_knspace (S fuel') e σ' = (σ', Ok (Some ns)).
Proof.
  intros HP Ho0 Hm0 Hname H. split.
  { eapply (entity_call_regular fuel e (SetKnspace value)); [|exact H|exact HP].
    split; [|done]. intros ob' b' ??. congruence. }
  apply set_knspace_ok_inv in H
    as (old & σ1 & ob1 & b1 & σ2 & v' & σ3 & Hg & Ho1 & Hm1 & Hclear & Hv & H).
  destruct (clear_objs _ _ _ _ _ _ _ Hclear) as (Eo2 & _ & Hk2).
  destruct (assigned_objs _ _ _ _ _ Hv) as (Eo3 & _ & Hk3).
  assert (objs σ3 !! e = Some ob1) as Ho3 by (by rewrite Eo3, Eo2).
  pose proof (assign_lookup e v' _ _ _ Ho3 Hm1) as Ho4.
  set (σ4 := assign e v' σ3) in *.
  set (b4 := with_knspace v' (with_last v' b1)) in *.
  assert (∃ ob b, objs σ' !! e = Some ob ∧ mixin ob = Some b ∧
            _knspace b = v' ∧ (is_Some v' → last_knspace b = v') ∧ ns_kept σ4 σ')
    as (ob & b & Ho & Hm & Hk & Hl & Hkept).
  { destruct (nonempty (_name b1)).
    2:{ unfold ret in H. simplify_eq. eexists _, _.
        split; [done|]. split; [done|]. eauto using ns_kept_refl. }
    apply bind_ok_inv in H as (k & σ5 & Hg5 & H).
    destruct (negb (truthy k)); [done|].
    assert (objs σ' = objs σ5 ∧ ns_kept σ5 σ') as [Eo Hk5].
    { destruct k as [N|]; [|done]. simpl in H.
      destruct (setattr_objs _ _ _ _ _ _ _ H). eauto using store_ns_kept. }
    rewrite Eo. destruct v' as [ns|].
    - destruct fuel as [|fuel]; [done|].
      rewrite (getter_explicit _ _ _ b4 ns _ Ho4 eq_refl eq_refl) in Hg5. simplify_eq.
      eexists _, _. split; [done|]. split; [done|]. eauto.
    - pose proof (proj1 (getter_cache_only fuel) _ _ _ _ Hg5) as Hc.
      destruct (cache_only_mixin _ _ _ _ _ Hc Ho4 eq_refl)
        as (ob5 & b5 & Ho5 & Hm5 & _ & _ & Hk5' & _).
      exists ob5, b5. split; [done|]. split; [done|]. split; [done|].
      split; [by intros [??]|]. eapply ns_kept_trans; [|done].
      apply ns_kept_spaces. by destruct Hc as (_ & -> & _). }
  exists old, σ1, ob, b. split; [done|]. split; [done|]. split; [done|]. split.
  - destruct value as [| |r]; simpl in Hv.
    + by injection Hv as <- <-.
    + destruct old as [N|]; [|done]. injection Hv as <- <-.
      set (C := fresh (dom (spaces σ2))) in *.
      destruct (Hkept C (MkKNSpace (Some N) ∅ ∅ ∅)) as (oc & Hc' & Hp & _).
      { unfold σ4. rewrite assign_spaces. simpl. apply lookup_insert_eq. }
      exists N, C, oc. split; [done|]. split; [done|]. split; [by apply Hl|].
      split; [|done].
      destruct (spaces σ !! C) as [o0|] eqn:E; [|done].
      pose proof (proj1 (getter_cache_only fuel) _ _ _ _ Hg) as (_ & Es & _).
      rewrite <- Es in E. destruct (Hk2 _ _ E) as (o2 & E2 & _).
      pose proof (is_fresh (dom (spaces σ2))) as Hf. exfalso. apply Hf.
      apply elem_of_dom. eauto.
    + injection Hv as <- <-. split; [done|]. by apply Hl.
  - intros ns Hns fuel'. by eapply getter_explicit.
Qed.

Lemma getter_has_mixin fuel e σ σ1 res :
  _get_knspace fuel e σ = (σ1, res) → res ≠ OutOfFuel →
  (∀ ex, res ≠ Raise ex) →
  ∃ ob b, objs σ !! e = Some ob ∧ mixin ob = Some b.
Proof.
  intros Hg H1 H2. destruct fuel; [simpl in Hg; unfold out_of_fuel in Hg; by simplify_eq|].
  simpl in Hg.
  apply bind_inv in Hg as [(b & σ2 & Hb & _)|[(ex & _ & ->)|[_ ->]]];
    [|by destruct (H2 ex)|done].
  apply the_mixin_inv in Hb as [_ (ob & ? & ?)]. eauto.
Qed.

(** X13: after [knspace = value] returned on a named entity, the
    namespace the entity now resolves to yields the entity under its name,
    and the namespace it had before, if another one, yields None. *)
Theorem set_knspace_moves_name fuel e value σ σ' ob b :
  objs σ !! e = Some ob → mixin ob = Some b → nonempty (_name b) = true →
  _set_knspace fuel e value σ = (σ', Ok tt) →
  ∃ old new σ1 τ,
    _get_knspace fuel e σ = (σ1, Ok old) ∧
    _get_knspace fuel e σ' = (τ, Ok (Some new)) ∧
    (∀ fuel', ∃ v, KNSpace.getattr (S fuel') σ' new (_name b) = Ok v ∧
                   eq_self e v = true) ∧
    (∀ N, old = Some N → N ≠ new →
       ∀ fuel', KNSpace.getattr (S fuel') σ' N (_name b) = Ok VNone).
Proof.
  intros Ho Hm Hn H.
  apply set_knspace_ok_inv in H
    as (old & σ1 & ob1 & b1 & σ2 & v' & σ3 & Hg & Ho1 & Hm1 & Hclear & Hv & H).
  pose proof (proj1 (getter_cache_only fuel) _ _ _ _ Hg) as Hc1.
  destruct (cache_only_mixin _ _ _ _ _ Hc1 Ho Hm)
    as (ob1' & b1' & Ho1' & Hm1' & _ & _ & _ & Hname & _).
  assert (b1' = b1) as -> by congruence. rewrite Hname in *. clear Ho1' Hm1'.
  rewrite Hn in H, Hclear. simpl in Hclear.
  apply bind_ok_inv in H as (k & σ5 & Hg5 & H).
  destruct k as [new|]; [|done]. simpl in H.
  destruct (assigned_objs _ _ _ _ _ Hv) as (Eo3 & Ec3 & Hk3).
  assert (∃ τ, _get_knspace fuel e σ' = (τ, Ok (Some new))) as [τ Hg'].
  { assert (same_tree (assign e v' σ3) σ') as Ht.
    { eapply same_tree_trans;
        [apply cache_only_same_tree; by eapply (proj1 (getter_cache_only fuel))|].
      apply same_tree_objs. by apply setattr_objs in H as [? _]. }
    destruct (proj1 (getter_same_tree fuel) _ _ _ _ _ Ht Hg5) as (τ & ? & _). eauto. }
  exists old, new, σ1, τ. split; [done|]. split; [done|]. split.
  - intros fuel'. destruct (getattr_after_setattr _ fuel' _ _ _ _ _ H) as (v & Hv' & Hs).
    exists v. split; [done|].
    destruct Hs as [-> | ->]; [by apply bool_decide_eq_true_2 | apply eq_self_stored].
  - intros N -> Hne fuel'.
    unfold truthy in Hclear. rewrite bool_decide_eq_true_2 in Hclear by eauto.
    simpl in Hclear.
    destruct (setattr_local _ _ _ _ _ _ Hclear) as (o2 & w & Hr2 & Hloc & Hw).
    assert (w = VNone) as -> by (by destruct Hw as [-> | ->]).
    assert (spaces σ3 !! N = Some o2) as Hr3.
    { destruct value as [| |r]; simpl in Hv; simplify_eq; try done.
      simpl. rewrite lookup_insert_ne; [done|]. intros E.
      pose proof (is_fresh (dom (spaces σ2))) as Hf. apply Hf. rewrite E.
      apply elem_of_dom. eauto. }
    assert (spaces σ5 !! N = Some o2) as Hr5.
    { pose proof (proj1 (getter_cache_only fuel) _ _ _ _ Hg5) as (_ & -> & _).
      by rewrite assign_spaces. }
    eapply getattr_local; [|apply Hloc].
    by rewrite (setattr_other_space _ _ _ _ _ _ _ _ H Hne).
Qed.

(** X14: [knspace = 'clone'] on an entity whose namespace resolves to None
    raises the ValueError for cloning; nothing but the cache written by
    that resolution has changed. *)
Theorem clone_needs_namespace fuel e σ σ1 :
  _get_knspace fuel e σ = (σ1, Ok None) →
  _set_knspace fuel e ArgClone σ = (σ1, Raise ValueError_clone) ∧
  cache_only σ σ1.
Proof.
  intros Hg. split; [|by eapply (proj1 (getter_cache_only fuel))].
  destruct (getter_has_mixin _ _ _ _ _ Hg) as (ob & b & Ho & Hm); [done|done|].
  pose proof (proj1 (getter_cache_only fuel) _ _ _ _ Hg) as Hc.
  destruct (cache_only_mixin _ _ _ _ _ Hc Ho Hm) as (ob1 & b1 & Ho1 & Hm1 & _).
  unfold _set_knspace, bind. rewrite Hg. unfold _get_name, bind.
  rewrite (the_mixin_some _ _ _ _ Ho1 Hm1). unfold ret at 1.
  unfold truthy. rewrite bool_decide_eq_false_2 by (by intros [??]).
  by rewrite andb_false_r.
Qed.

(** X15: renaming a named entity to another non-empty name stores the new
    name; its namespace then yields None under the old name and the entity
    under the new one. *)
Theorem rename_clears_old_name fuel e n σ σ' ob b :
  objs σ !! e = Some ob → mixin ob = Some b →
  nonempty (_name b) = true → nonempty n = true → n ≠ _name b →
  _set_name fuel e n σ = (σ', Ok tt) →
  ∃ N σ1, _get_knspace fuel e σ = (σ1, Ok (Some N)) ∧
    _get_name e σ' = (σ', Ok n) ∧
    ∀ fuel', KNSpace.getattr (S fuel') σ' N (_name b) = Ok VNone ∧
      ∃ v, KNSpace.getattr (S fuel') σ' N n = Ok v ∧ eq_self e v = true.
Proof.
  intros Ho Hm Hold Hn Hne H. unfold _set_name in H.
  unfold bind at 1 in H. rewrite (the_mixin_some _ _ _ _ Ho Hm) in H.
  apply bind_ok_inv in H as (k & σ1 & Hg & H).
  apply bind_ok_inv in H as (u1 & σ2 & Hclear & H). destruct u1.
  apply bind_ok_inv in H as (u2 & σ3 & Hupd & H). destruct u2.
  rewrite update_mixin_eq in Hupd. injection Hupd as <-.
  rewrite Hn in H. rewrite Hold in Hclear. destruct k as [N|]; [|done].
  unfold truthy in H, Hclear. rewrite bool_decide_eq_true_2 in H, Hclear by eauto.
  simpl in H, Hclear.
  pose proof (proj1 (getter_cache_only fuel) _ _ _ _ Hg) as Hc.
  destruct (cache_only_mixin _ _ _ _ _ Hc Ho Hm) as (ob1 & b1 & Ho1 & Hm1 & _).
  assert (objs σ2 !! e = Some ob1) as Ho2.
  { by apply setattr_objs in Hclear as [-> _]. }
  exists N, σ1. split; [done|]. split.
  { apply setattr_objs in H as [Eo _].
    assert (objs σ' !! e = Some (set_mixin (with_name n b1) ob1)) as Ho'.
    { rewrite Eo. apply (update_mixin_lookup e (with_name n) ob1 b1 σ2 Ho2 Hm1). }
    unfold _get_name, bind. by rewrite (the_mixin_some _ _ _ _ Ho' eq_refl). }
  intros fuel'. split.
  - rewrite (getattr_other_after_setattr _ _ _ _ _ _ _ _ _ _ H) by done.
    rewrite (getattr_ext σ2) by done.
    destruct (getattr_after_setattr _ fuel' _ _ _ _ _ Hclear) as (w & ? & Hw).
    by destruct Hw as [-> | ->].
  - destruct (getattr_after_setattr _ fuel' _ _ _ _ _ H) as (v & Hv & Hs).
    exists v. split; [done|].
    destruct Hs as [-> | ->]; [by apply bool_decide_eq_true_2 | apply eq_self_stored].
Qed.

(** X16: assigning the empty name to an entity whose namespace resolves to
    None returns normally, modifies no namespace, and leaves the entity
    with the empty name. *)
Theorem clear_name_without_namespace fuel e σ σ1 :
  _get_knspace fuel e σ = (σ1, Ok None) →
  ∃ σ', _set_name fuel e "" σ = (σ', Ok tt) ∧
        spaces σ' = spaces σ ∧
        _get_name e σ' = (σ', Ok "").
Proof.
  intros Hg.
  destruct (getter_has_mixin _ _ _ _ _ Hg) as (ob & b & Ho & Hm); [done|done|].
  pose proof (proj1 (getter_cache_only fuel) _ _ _ _ Hg) as Hc.
  destruct (cache_only_mixin _ _ _ _ _ Hc Ho Hm) as (ob1 & b1 & Ho1 & Hm1 & _).
  exists (fst (update_mixin e (with_name "") σ1)). split; [|split].
  - unfold _set_name, bind. rewrite (the_mixin_some _ _ _ _ Ho Hm), Hg.
    unfold truthy. rewrite bool_decide_eq_false_2 by (by intros [??]).
    rewrite andb_false_r. unfold ret. by rewrite update_mixin_eq.
  - rewrite update_mixin_spaces. by destruct Hc as (_ & -> & _).
  - unfold _get_name, bind.
    by rewrite (the_mixin_some _ _ _ _
                  (update_mixin_lookup _ (with_name "") _ _ _ Ho1 Hm1) eq_refl).
Qed.

(** X17: in a world where no namespace has a slot or a plain attribute
    under a name of [self_attrs], assigning a name to an entity, where
    neither the old nor the new name is such a name, whatever the outcome,
    leaves the world of that kind and changes no lookup under a name that
    is neither the old nor the new one, on any namespace. *)
Theorem naming_leaves_other_names fuel e n σ σ' res ob b name' :
  regular σ → objs σ !! e = Some ob → mixin ob = Some b →
  n ∉ self_attrs → _name b ∉ self_attrs →
  name' ≠ n → name' ≠ _name b →
  _set_name fuel e n σ = (σ', res) →
  regular σ' ∧
  ∀ fuel' r, KNSpace.getattr fuel' σ' r name' = KNSpace.getattr fuel' σ r name'.
Proof.
  intros Hreg Ho Hm Hplain Hplain' Hn Hold H. split.
  { eapply (entity_call_regular fuel e (SetName n)); [|exact H|exact Hreg].
    split; [|done]. intros ob' b' ??. congruence. }
  unfold _set_name in H.
  unfold bind at 1 in H. rewrite (the_mixin_some _ _ _ _ Ho Hm) in H.
  set (P := λ τ, ∀ fuel' r,
         KNSpace.getattr fuel' τ r name' = KNSpace.getattr fuel' σ r name').
  assert (∀ τ τ', spaces τ' = spaces τ → class_attrs τ' = class_attrs τ →
                  P τ → P τ') as Hext.
  { intros τ τ' Es Ec HP f r. rewrite <- HP. by apply getattr_ext. }
  assert (∀ k name v, name' ≠ name → keeps P (setattr fuel k name v)) as Hstore.
  { intros [N|] name v Hne τ τ' res' HP Hs; simpl in Hs.
    - intros f r. rewrite <- HP. by eapply getattr_other_after_setattr.
    - unfold raise in Hs. by simplify_eq. }
  assert (∀ f, keeps P (update_mixin e f)) as Hupd.
  { intros f τ τ' res' HP Hs. rewrite update_mixin_eq in Hs.
    injection Hs as <- _. by apply (Hext τ). }
  assert (keeps P (_get_knspace fuel e)) as Hget.
  { intros τ τ' res' HP Hs.
    apply (proj1 (getter_cache_only fuel)) in Hs as (Ec & Es & _). by apply (Hext τ). }
  refine (keeps_bind P _ _ Hget _ σ σ' res _ H); [|by intros ??].
  intros knspace.
  apply keeps_bind; [apply keeps_if; [by apply Hstore|apply keeps_ret]|]. intros _.
  apply keeps_bind; [apply Hupd|]. intros _.
  apply keeps_if; [|apply keeps_ret].
  apply keeps_if; [by apply Hstore|apply keeps_raise].
Qed.

Lemma the_mixin_raises e σ σ' ex :
  the_mixin e σ = (σ', Raise ex) →
  ex = ReferenceError ∨ ex = AttributeError "_knspace".
Proof.
  unfold the_mixin, bind, the_object, ret, raise.
  destruct (objs σ !! e) as [o|]; [|intros; left; by simplify_eq].
  destruct (mixin o); intros; simplify_eq. by right.
Qed.

Lemma getter_raises fuel :
  (∀ e σ σ' ex, _get_knspace fuel e σ = (σ', Raise ex) →
     ex = ReferenceError ∨ ex = AttributeError "_knspace") ∧
  (∀ e key cur σ σ' ex, _get_knspace_loop fuel e key cur σ = (σ', Raise ex) →
     ex = ReferenceError ∨ ex = AttributeError "_knspace").
Proof.
  induction fuel as [|fuel [IH1 IH2]]; [split; intros; done|]. split.
  - intros e σ σ' ex H. simpl in H.
    apply bind_inv in H as [(b & σ1 & Hm & H)|[(e' & Hm & E)|[_ ?]]]; [| |done].
    2:{ simplify_eq. by eapply the_mixin_raises. }
    destruct (_knspace b); [done|].
    destruct (negb (nonempty (knspace_key b))); [done|].
    apply bind_inv in H as [(p & σ2 & Hl & H)|[(e' & Hl & E)|[_ ?]]]; [| |done].
    + by eapply IH2.
    + simplify_eq. unfold getattr_link, bind, the_object, ret in Hl.
      destruct (objs σ1 !! e); simplify_eq. by left.
  - intros e key cur σ σ' ex H. simpl in H. destruct cur as [p|]; [|done].
    apply bind_inv in H as [(po & σ1 & Ho & H)|[(e' & Ho & E)|[_ ?]]]; [| |done].
    2:{ simplify_eq. unfold the_object in Ho. destruct (objs σ !! p); simplify_eq.
        by left. }
    apply bind_inv in H as [(pk & σ2 & Hk & H)|[(e' & Hk & E)|[_ ?]]]; [| |done].
    + destruct pk as [v|]; [done|].
      apply bind_inv in H as [(nx & σ3 & Hl & H)|[(e' & Hl & E)|[_ ?]]]; [| |done].
      * by eapply IH2.
      * simplify_eq. unfold getattr_link, bind, the_object, ret in Hl.
        destruct (objs σ2 !! p); simplify_eq. by left.
    + simplify_eq. destruct (mixin po); [|done].
      apply bind_inv in Hk as [(v & σ3 & Hg & Hk)|[(e'' & Hg & E)|[_ ?]]]; [done| |done].
      simplify_eq. by eapply IH1.
Qed.

(** X18: [knspace = value] raises the ValueError for a name without
    namespace only when None is assigned to a named entity whose ancestors
    then give no namespace; by then the explicit namespace is already None,
    the name is kept, and the namespace the entity had yields None under
    that name. *)
Theorem set_knspace_name_error fuel e value σ σ' n :
  _set_knspace fuel e value σ = (σ', Raise (ValueError_name n)) →
  value = ArgNone ∧ nonempty n = true ∧
  (∃ ob b, objs σ' !! e = Some ob ∧ mixin ob = Some b ∧
           _knspace b = None ∧ _name b = n) ∧
  (∃ τ, _get_knspace fuel e σ' = (τ, Ok None)) ∧
  ∀ N σ1, _get_knspace fuel e σ = (σ1, Ok (Some N)) →
    ∀ fuel', KNSpace.getattr (S fuel') σ' N n = Ok VNone.
Proof.
  intros H. unfold _set_knspace in H.
  apply bind_inv in H as [(old & σ1 & Hg & H)|[(ex & Hg & E)|[_ ?]]]; [| |done].
  2:{ apply (proj1 (getter_raises fuel)) in Hg. simplify_eq. by destruct Hg. }
  apply bind_inv in H as [(name & σ1' & Hn & H)|[(ex & Hn & E)|[_ ?]]]; [| |done].
  2:{ unfold _get_name in Hn.
      apply bind_inv in Hn as [(? & ? & _ & ?)|[(ex' & Hb & E')|[_ ?]]]; [done| |done].
      simplify_eq. apply the_mixin_raises in Hb. by destruct Hb. }
  unfold _get_name in Hn. apply bind_ok_inv in Hn as (b1 & σ1'' & Hb & Hn).
  apply the_mixin_inv in Hb as [-> (ob1 & Ho1 & Hm1)].
  unfold ret in Hn. injection Hn as <- <-.
  apply bind_inv in H as [(u & σ2 & Hclear & H)|[(ex & Hclear & E)|[_ ?]]]; [| |done].
  2:{ simplify_eq. destruct (nonempty (_name b1) && truthy old); [|done].
      destruct old as [N|]; simpl in Hclear; [|done].
      by apply store_raises in Hclear. }
  destruct u.
  apply bind_inv in H as [(v' & σ3 & Hv & H)|[(ex & Hv & E)|[_ ?]]]; [| |done].
  2:{ simplify_eq. destruct value as [| |r]; [done| |done].
      destruct old as [N|]; [|done].
      apply bind_inv in Hv as [(? & ? & _ & ?)|[(ex' & Hc & E')|[_ ?]]]; done. }
  apply bind_inv in H as [(u & σ4 & Hu1 & H)|[(ex & Hu1 & E)|[_ ?]]]; [|done|done].
  apply bind_inv in H as [(u' & σ5 & Hu2 & H)|[(ex & Hu2 & E)|[_ ?]]]; [|done|done].
  rewrite update_mixin_eq in Hu1. injection Hu1 as <- _.
  rewrite update_mixin_eq in Hu2. injection Hu2 as <- _.
  fold (assign e v' σ3) in H.
  destruct (nonempty (_name b1)) eqn:Hne; [|done].
  apply bind_inv in H as [(k & σ6 & Hg6 & H)|[(ex & Hg6 & E)|[_ ?]]]; [| |done].
  2:{ apply (proj1 (getter_raises fuel)) in Hg6. simplify_eq. by destruct Hg6. }
  destruct k as [K|]; simpl in H.
  { by apply store_raises in H. }
  unfold raise in H. injection H as <- <-.
  assert (objs σ2 = objs σ1 ∧ ns_kept σ1 σ2) as [Eo2 Hk2].
  { destruct (clear_objs _ _ _ _ _ _ _ Hclear) as (? & _ & ?). done. }
  assert (assigned value old σ2 = Some (v', σ3)) as Ha.
  { destruct value as [| |r]; simpl; unfold ret in Hv; simplify_eq; try done.
    destruct old as [N|]; [|done].
    apply bind_ok_inv in Hv as (c & σ3' & Hc & Hv). unfold ret in Hv. simplify_eq.
    unfold KNSpace.clone, KNSpace.__init__, bind, gets, modify, ret in Hc.
    by simplify_eq. }
  destruct (assigned_objs _ _ _ _ _ Ha) as (Eo3 & _ & Hk3).
  assert (objs σ3 !! e = Some ob1) as Ho3 by (by rewrite Eo3, Eo2).
  pose proof (assign_lookup e v' _ _ _ Ho3 Hm1) as Ho4.
  assert (v' = None) as ->.
  { destruct v' as [ns|]; [|done]. destruct fuel as [|fuel]; [done|].
    by rewrite (getter_explicit _ _ _ _ ns _ Ho4 eq_refl eq_refl) in Hg6. }
  assert (value = ArgNone) as ->.
  { destruct value as [| |r]; simpl in Ha; [done| |done].
    by destruct old. }
  simpl in Ha. injection Ha as <-.
  pose proof (proj1 (getter_cache_only fuel) _ _ _ _ Hg6) as Hc6.
  split; [done|]. split; [done|]. split; [|split].
  - destruct (cache_only_mixin _ _ _ _ _ Hc6 Ho4 eq_refl)
      as (ob6 & b6 & Ho6 & Hm6 & _ & _ & Hk6 & Hn6 & _).
    exists ob6, b6. done.
  - destruct (proj1 (getter_same_tree fuel) _ _ _ _ _
                (cache_only_same_tree _ _ Hc6) Hg6) as (τ & ? & _). eauto.
  - intros N σ1' Hg' fuel'. rewrite Hg in Hg'. injection Hg' as _ ->.
    rewrite ?Hne in Hclear. unfold truthy in Hclear.
    rewrite bool_decide_eq_true_2 in Hclear by eauto. simpl in Hclear.
    destruct (getattr_after_setattr _ fuel' _ _ _ _ _ Hclear) as (w & Hw & Hs).
    assert (w = VNone) as -> by (by destruct Hs as [-> | ->]).
    rewrite <- Hw. apply getattr_ext.
    + destruct Hc6 as (_ & -> & _). done.
    + destruct Hc6 as (-> & _). done.
Qed.

(** ** The scenes, run *)

Example rooted_is_built :
  fst (KNSpace.__setattr__ 2 knspace "w" (VObj 7) (startup ∅)) = rooted.
Proof. vm_compute. reflexivity. Qed.

Example shadow_scene_is_built :
  (KNSpace.__setattr__ 2 knspace "w" (VObj 7) ;;; KNSpace.clone knspace) (startup ∅)
  = (shadow_scene, Ok 1).
Proof. vm_compute. reflexivity. Qed.

Example moved_is_built :
  (_set_name 3 1 "w" ;;; KNSpace.__init__ None) two_widgets = (moved, Ok 1).
Proof. vm_compute. reflexivity. Qed.

(** Construction leaves a fresh entity as the class defaults have it. *)
Example init_keeps_defaults :
  __init__ 2 1 ArgNone two_widgets = (two_widgets, Ok tt).
Proof. vm_compute. reflexivity. Qed.

(** An ancestor whose [knspace] attribute is None ends the walk with None;
    without such an ancestor the walk ends at the root. *)
Example resolve_stops_at_none : snd (_get_knspace 3 1 orphan) = Ok None.
Proof. vm_compute. reflexivity. Qed.

Example resolve_reaches_root : snd (_get_knspace 4 1 nested) = Ok (Some knspace).
Proof. vm_compute. reflexivity. Qed.

(** Renaming clears the old entry and fills the new one. *)
Example rename_moves_entry :
  snd ((_set_name 3 1 "n1" ;;; _set_name 3 1 "n2" ;;;
        a <- getattr 1 (Some knspace) "n1" ;;
        b <- getattr 1 (Some knspace) "n2" ;;
        ret (a, b)) two_widgets) = Ok (VNone, VObj 1).
Proof. vm_compute. reflexivity. Qed.

(** C1: two entities are named "foo" in the root namespace, one after the
    other, and the namespace yields the second; clearing the name of the
    first then leaves None under "foo", although the second entity is the
    occupant. *)
Theorem clearing_displaced_name_unbinds_occupant :
  snd ((_set_name 3 1 "foo" ;;; _set_name 3 2 "foo" ;;;
        a <- getattr 1 (Some knspace) "foo" ;;
        _set_name 3 1 "" ;;;
        b <- getattr 1 (Some knspace) "foo" ;;
        ret (a, b)) two_widgets) = Ok (VObj 2, VNone).
Proof. vm_compute. reflexivity. Qed.

(** C2: with two entities named "foo" in the root namespace, the second
    being the occupant, assigning the first a new namespace leaves None under
    "foo" in the root. *)
Theorem set_knspace_unbinds_occupant_of_old_namespace :
  snd ((_set_name 3 1 "foo" ;;; _set_name 3 2 "foo" ;;;
        m <- KNSpace.__init__ None ;;
        a <- getattr 1 (Some knspace) "foo" ;;
        _set_knspace 3 1 (ArgSpace m) ;;;
        b <- getattr 1 (Some knspace) "foo" ;;
        c <- getattr 1 (Some m) "foo" ;;
        ret (a, b, c)) two_widgets) = Ok (VObj 2, VNone, VObj 1).
Proof. vm_compute. reflexivity. Qed.

(** The failing [name = "w"] has replaced the stored name. *)
Lemma failed_set_name_changes_stored_name :
  ∃ σ', _set_name 4 1 "w" orphan = (σ', Raise (ValueError_name "w")) ∧
        snd (_get_name 1 σ') ≠ snd (_get_name 1 orphan).
Proof. eexists. split; [vm_compute; reflexivity|]. vm_compute. discriminate. Qed.

(** The namespace holds the weak handle, not the entity. *)
Lemma registered_value_is_weak_handle :
  ∃ σ', _set_name 3 2 "w" weak_widget = (σ', Ok tt) ∧
        snd (_get_knspace 3 2 weak_widget) = Ok (Some knspace) ∧
        KNSpace.getattr 1 σ' knspace "w" = Ok (VProxy 2) ∧
        KNSpace.getattr 1 σ' knspace "w" ≠ Ok (VObj 2).
Proof.
  eexists. split; [vm_compute; reflexivity|]. split; [vm_compute; reflexivity|].
  split; [vm_compute; reflexivity|]. vm_compute. discriminate.
Qed.

(** The first store on the clone, under a name its parent binds, builds no
    slot and records nothing; nor does the first store on the root under a
    name the class binds. *)
Lemma first_store_can_build_no_slot :
  (∃ σ' o',
     spaces shadow_scene !! 1 = Some (MkKNSpace (Some knspace) ∅ ∅ ∅) ∧
     run_call 2 1 (CallSet "w" (VObj 8)) shadow_scene = (σ', Ok tt) ∧
     spaces σ' !! 1 = Some o' ∧
     props o' = ∅ ∧ has_applied o' = ∅ ∧
     prop_count σ' = prop_count shadow_scene) ∧
  (∃ σ' o',
     run_call 1 knspace (CallSet "bind" (VObj 8)) (startup ∅) = (σ', Ok tt) ∧
     spaces σ' !! knspace = Some o' ∧
     props o' = ∅ ∧ has_applied o' = ∅ ∧
     prop_count σ' = prop_count (startup ∅)).
Proof.
  split.
  - eexists _, _. split; [vm_compute; reflexivity|].
    split; [vm_compute; reflexivity|]. split; [vm_compute; reflexivity|].
    repeat split; vm_compute; reflexivity.
  - eexists _, _. split; [vm_compute; reflexivity|].
    split; [vm_compute; reflexivity|]. repeat split; vm_compute; reflexivity.
Qed.

(** The property request with the default [quiet=False] raises, builds
    nothing, and the clone still reads the name through its parent. *)
Lemma default_property_request_raises :
  KNSpace.property 1 "w" false shadow_scene = (shadow_scene, Raise (KeyError "w")) ∧
  KNSpace.getattr 2 shadow_scene 1 "w" = Ok (VObj 7) ∧
  KNSpace.getattr 2 shadow_scene 1 "w" ≠ Ok VNone.
Proof.
  split; [vm_compute; reflexivity|]. split; [vm_compute; reflexivity|].
  vm_compute. discriminate.
Qed.

(** ** The theorems at work on the scenes *)

Lemma resolve_namespace_walk_witness :
  _get_knspace 4 1 nested = (cached 1 (Some knspace) nested, Ok (Some knspace)).
Proof.
  refine (proj1 (proj2 (proj2 (resolve_namespace_walk nested 1
            (widget false {[ "parent" := 3 ]}) (MkBehavior None "" "parent" None)
            [3; 4] None _ _ _ _ _ 0))) eq_refl).
  - vm_compute; reflexivity.
  - reflexivity.
  - reflexivity.
  - reflexivity.
  - change (passes nested "parent" (Some 3) [3; 4] None).
    apply passes_skip with (po := container {[ "parent" := 4 ]} None);
      [vm_compute; reflexivity | reflexivity | reflexivity |].
    change (passes nested "parent" (Some 4) [4] None).
    apply passes_skip with (po := container ∅ None);
      [vm_compute; reflexivity | reflexivity | reflexivity |].
    apply passes_here.
Defined.


Lemma set_name_without_namespace_witness :
  ∃ σ', _set_name 4 1 "w" orphan = (σ', Raise (ValueError_name "w")) ∧
        spaces σ' = spaces orphan ∧
        _get_name 1 σ' = (σ', Ok "w").
Proof.
  refine (set_name_without_namespace 4 orphan (fst (_get_knspace 4 1 orphan)) 1 "w" _ _).
  - reflexivity.
  - vm_compute; reflexivity.
Defined.


Lemma set_name_registers_witness :
  ∃ N σ1 o' ob v,
    _get_knspace 3 2 weak_widget = (σ1, Ok (Some N)) ∧
    spaces (fst (_set_name 3 2 "w" weak_widget)) !! N = Some o' ∧
    objs (fst (_set_name 3 2 "w" weak_widget)) !! 2 = Some ob ∧
    v = (if bool_decide (is_Some (props o' !! "w")) && proxied ob
         then VProxy 2 else VObj 2) ∧
    eq_self 2 v = true ∧
    ∀ fuel', KNSpace.getattr (S fuel') (fst (_set_name 3 2 "w" weak_widget)) N "w" = Ok v.
Proof.
  refine (set_name_registers 3 weak_widget _ 2 "w" _ _).
  - reflexivity.
  - vm_compute; reflexivity.
Defined.

Lemma slot_built_at_most_once_witness :
  (∃ o1 o2, spaces rooted !! knspace = Some o1 ∧
     spaces (fst (run_call 2 knspace (CallSet "w" VNone) rooted)) !! knspace = Some o2 ∧
     slots_grow (MkKNSpace None ∅ ∅ ∅) o1 ∧ slots_grow o1 o2) ∧
  regular rooted ∧
  regular (fst (run_call 2 knspace (CallSet "w" VNone) rooted)).
Proof.
  refine (proj2 (proj2 (proj2 (proj2
    (slot_built_at_most_once 2 knspace (CallSet "w" (VObj 7)) (startup ∅)
       rooted (fst (run_call 2 knspace (CallSet "w" VNone) rooted)) (Ok tt)
       (MkKNSpace None ∅ ∅ ∅) _ _ _ _ _))))).
  - refine (proj1 (bool_decide_eq_true _) _). vm_compute; reflexivity.
  - refine (proj1 (bool_decide_eq_true _) _). vm_compute; reflexivity.
  - vm_compute; reflexivity.
  - vm_compute; reflexivity.
  - apply rtc_once. exists 2, knspace, (CallSet "w" VNone), (Ok tt).
    split; [|vm_compute; reflexivity].
    refine (proj1 (bool_decide_eq_true _) _). vm_compute; reflexivity.
Defined.

Lemma exchange_nspace_spec_witness :
  (∃ σ', __exchange_nspace 3 1 (Some 1) moved = (σ', Ok tt) ∧
     (∃ v, KNSpace.getattr 1 σ' 1 "w" = Ok v ∧ eq_self 1 v = true) ∧
     KNSpace.getattr 1 σ' knspace "w" = Ok VNone) ∧
  (∃ σ', __exchange_nspace 3 1 None moved = (σ', Ok tt) ∧
     KNSpace.getattr 1 σ' knspace "w" = Ok VNone).
Proof.
  assert (Ho : objs moved !! 1 = Some (MkObject ∅ None false
                 (Some (MkBehavior None "w" "parent" (Some knspace)))))
    by (vm_compute; reflexivity).
  split.
  - destruct (exchange_nspace_spec 3 moved 1 _ _ (Some 1) Ho eq_refl) as [_ H].
    destruct (H ltac:(discriminate)) as (_ & _ & H3).
    destruct (H3 eq_refl
                (fst (KNSpace.__setattr__ 3 1 "w" (VObj 1) (cached 1 (Some 1) moved)))
                (Ok tt) ltac:(vm_compute; reflexivity))
      as (σ' & res & Hex & _ & Hok).
    destruct (Hok eq_refl) as [Hreg Hold]. cbv beta iota delta [last_knspace _name] in Hold.
    assert (KNSpace.getattr 3
              (fst (KNSpace.__setattr__ 3 1 "w" (VObj 1) (cached 1 (Some 1) moved)))
              knspace "w" = Ok (VObj 1)) as Hg by (vm_compute; reflexivity).
    rewrite Hg in Hold. destruct Hold as (-> & _ & Hnone).
    exists σ'. split; [done|]. split; [apply (Hreg 1 eq_refl 0)|apply (Hnone 0)].
  - destruct (exchange_nspace_spec 3 moved 1 _ _ None Ho eq_refl) as [_ H].
    destruct (H ltac:(discriminate)) as (_ & _ & H3).
    destruct (H3 eq_refl (cached 1 None moved) (Ok tt) eq_refl)
      as (σ' & res & Hex & _ & Hok).
    destruct (Hok eq_refl) as [_ Hold]. cbv beta iota delta [last_knspace _name] in Hold.
    assert (KNSpace.getattr 3 (cached 1 None moved) knspace "w" = Ok (VObj 1))
      as Hg by (vm_compute; reflexivity).
    rewrite Hg in Hold. destruct Hold as (-> & _ & Hnone).
    exists σ'. split; [done|]. apply (Hnone 0).
Defined.

Lemma property_request_shadows_witness :
  ∃ σ' oc',
    KNSpace.property 1 "w" true shadow_scene
    = (σ', Ok (MkProperty (prop_count shadow_scene) VNone)) ∧
    spaces σ' !! 1 = Some oc' ∧
    props oc' !! "w" = Some (Slot (MkProperty (prop_count shadow_scene) VNone) VNone) ∧
    "w" ∈ has_applied oc' ∧
    (∀ r, r ≠ 1 → spaces σ' !! r = spaces shadow_scene !! r) ∧
    regular σ' ∧
    (∀ f, KNSpace.getattr (S f) σ' 1 "w" = Ok VNone) ∧
    (∀ σ2, rtc (step_off 1 "w") σ' σ2 →
       ∀ f, KNSpace.getattr (S f) σ2 1 "w" = Ok VNone) ∧
    (∀ σ2, rtc any_step σ' σ2 →
       ∃ o2 s2, spaces σ2 !! 1 = Some o2 ∧ props o2 !! "w" = Some s2 ∧
         descriptor s2 = MkProperty (prop_count shadow_scene) VNone ∧
         ∀ f, KNSpace.getattr (S f) σ2 1 "w" = Ok (slot_value s2)).
Proof.
  refine (property_request_shadows shadow_scene 1 knspace
            (MkKNSpace (Some knspace) ∅ ∅ ∅) "w" _ _ _ _ _).
  - refine (proj1 (bool_decide_eq_true _) _). vm_compute; reflexivity.
  - refine (proj1 (bool_decide_eq_true _) _). vm_compute; reflexivity.
  - vm_compute; reflexivity.
  - reflexivity.
  - reflexivity.
Defined.

Lemma store_then_lookup_witness :
  ∃ o' v', spaces rooted !! knspace = Some o' ∧
    EventDispatcher.__getattribute__ rooted o' "w" = Some v' ∧
    (∀ fuel', KNSpace.getattr (S fuel') rooted knspace "w" = Ok v') ∧
    (v' = VObj 7 ∨ v' = stored (startup ∅) (VObj 7)) ∧
    (VObj 7 = VNone → v' = VNone) ∧
    (∀ e, VObj 7 = VObj e → eq_self e v' = true).
Proof.
  refine (store_then_lookup 2 knspace "w" (VObj 7) (startup ∅) rooted _).
  vm_compute; reflexivity.
Defined.

Lemma store_leaves_rest_witness :
  regular (fst (KNSpace.__setattr__ 2 1 "w" (VObj 8) shadow_scene)) ∧
  objs (fst (KNSpace.__setattr__ 2 1 "w" (VObj 8) shadow_scene)) = objs shadow_scene.
Proof.
  refine (let H := store_leaves_rest 2 1 "w" (VObj 8) shadow_scene
                     (fst (KNSpace.__setattr__ 2 1 "w" (VObj 8) shadow_scene))
                     (Ok tt) _ _ _ in
          conj (proj1 H) (proj1 (proj2 H))).
  - refine (proj1 (bool_decide_eq_true _) _). vm_compute; reflexivity.
  - refine (proj1 (bool_decide_eq_true _) _). vm_compute; reflexivity.
  - vm_compute; reflexivity.
Defined.

Lemma store_outcome_witness :
  ∃ σ', KNSpace.__setattr__ 2 1 "x" (VObj 8) shadow_scene = (σ', Ok tt).
Proof.
  refine (proj2 (store_outcome 2 1 "x" (VObj 8) shadow_scene _ _) 1 _ _).
  - refine (proj1 (bool_decide_eq_true _) _). vm_compute; reflexivity.
  - refine (proj1 (bool_decide_eq_true _) _). vm_compute; reflexivity.
  - apply depth_step with (o := MkKNSpace (Some knspace) ∅ ∅ ∅) (p := knspace);
      [vm_compute; reflexivity | reflexivity |].
    apply depth_root with (o := root_with_w); [vm_compute; reflexivity | reflexivity].
  - lia.
Defined.

Lemma lookup_outcome_witness :
  AttributeError "x" = AttributeError "x" ∧ ("x" ∉ class_attrs rooted) ∧
  ∀ o, spaces rooted !! knspace = Some o → props o !! "x" = None ∧ dict o !! "x" = None.
Proof.
  refine (lookup_outcome 1 rooted knspace "x" (AttributeError "x") _ _ _).
  - intros r o p Hr Hp. unfold rooted in Hr. simpl in Hr.
    apply lookup_singleton_Some in Hr as [<- <-]. discriminate.
  - exists root_with_w. vm_compute; reflexivity.
  - vm_compute; reflexivity.
Defined.

Lemma clone_extends_chain_witness :
  ∃ C σ', KNSpace.clone knspace rooted = (σ', Ok C) ∧
    spaces rooted !! C = None ∧
    depth σ' C 1 ∧
    (∀ r m, depth rooted r m → depth σ' r m) ∧
    ∀ name fuel, 1 < fuel →
      (∃ v, KNSpace.getattr fuel σ' C name = Ok v) ∨
      KNSpace.getattr fuel σ' C name = Raise (AttributeError name).
Proof.
  refine (clone_extends_chain rooted knspace 0 _).
  apply depth_root with (o := root_with_w); [vm_compute; reflexivity | reflexivity].
Defined.

Lemma store_on_clone_leaves_original_witness :
  KNSpace.getattr 1 (fst (KNSpace.__setattr__ 2 1 "w" (VObj 8) shadow_scene)) knspace "w"
  = KNSpace.getattr 1 rooted knspace "w".
Proof.
  refine (store_on_clone_leaves_original 2 rooted knspace 1 shadow_scene "w" (VObj 8)
            (fst (KNSpace.__setattr__ 2 1 "w" (VObj 8) shadow_scene)) (Ok tt) _ _ _
            1 knspace "w" _).
  - intros r o p Hr Hp. unfold rooted in Hr. simpl in Hr.
    apply lookup_singleton_Some in Hr as [<- <-]. discriminate.
  - vm_compute; reflexivity.
  - vm_compute; reflexivity.
  - exists root_with_w. vm_compute; reflexivity.
Defined.

Lemma property_descriptor_survives_witness :
  KNSpace.property 1 "w" false
    (fst (KNSpace.__setattr__ 2 1 "w" (VObj 8)
            (fst (KNSpace.property 1 "w" true shadow_scene))))
  = (fst (KNSpace.__setattr__ 2 1 "w" (VObj 8)
            (fst (KNSpace.property 1 "w" true shadow_scene))),
     Ok (MkProperty 1 VNone)).
Proof.
  refine (property_descriptor_survives 1 "w" shadow_scene
            (fst (KNSpace.property 1 "w" true shadow_scene)) _ (MkProperty 1 VNone)
            _ _ false).
  - vm_compute; reflexivity.
  - apply rtc_once, step_ns. exists 2, 1, (CallSet "w" (VObj 8)), (Ok tt).
    vm_compute; reflexivity.
Defined.

Lemma namespaces_are_kept_witness :
  regular (fst (_set_name 3 1 "w" two_widgets)) ∧
  ns_kept two_widgets (fst (_set_name 3 1 "w" two_widgets)) ∧
  (∀ r n, depth two_widgets r n → depth (fst (_set_name 3 1 "w" two_widgets)) r n) ∧
  (∀ r n name fuel, depth two_widgets r n → n < fuel →
     (∃ v, KNSpace.getattr fuel (fst (_set_name 3 1 "w" two_widgets)) r name = Ok v) ∨
     KNSpace.getattr fuel (fst (_set_name 3 1 "w" two_widgets)) r name
     = Raise (AttributeError name)).
Proof.
  refine (namespaces_are_kept two_widgets _ _ _).
  - refine (proj1 (bool_decide_eq_true _) _). vm_compute; reflexivity.
  - apply rtc_once, (plain_entity _ _ 3 1 (SetName "w") (Ok tt)).
    + split.
      * intros ob b Ho Hm. vm_compute in Ho. injection Ho as <-.
        injection Hm as <-. refine (proj1 (bool_decide_eq_true _) _).
        vm_compute; reflexivity.
      * refine (proj1 (bool_decide_eq_true _) _). vm_compute; reflexivity.
    + vm_compute; reflexivity.
Defined.

Lemma applied_names_have_slots_witness :
  applied_have_slots (fst (_set_name 3 1 "w" two_widgets)).
Proof.
  refine (applied_names_have_slots two_widgets _ _ _).
  - intros r o n Hr Hn. unfold two_widgets, startup in Hr. simpl in Hr.
    apply lookup_singleton_Some in Hr as [<- <-]. simpl in Hn.
    by apply elem_of_empty in Hn.
  - apply rtc_once, (step_entity _ _ 3 1 (SetName "w") (Ok tt)).
    vm_compute; reflexivity.
Defined.

Lemma entity_call_leaves_others_witness :
  same_tree_but 1 two_widgets (fst (_set_name 3 1 "w" two_widgets)).
Proof.
  refine (entity_call_leaves_others 3 1 (SetName "w") two_widgets _ (Ok tt) _).
  vm_compute; reflexivity.
Defined.

Lemma resolution_is_stable_witness :
  cache_only nested (fst (_get_knspace 4 1 nested)) ∧
  ∃ σ3,
    _get_knspace 4 1
      (fst (KNSpace.__setattr__ 2 knspace "w" (VObj 7) (fst (_get_knspace 4 1 nested))))
    = (σ3, Ok (Some knspace)) ∧
    cache_only
      (fst (KNSpace.__setattr__ 2 knspace "w" (VObj 7) (fst (_get_knspace 4 1 nested))))
      σ3.
Proof.
  refine (resolution_is_stable 4 1 nested _ (Some knspace) _ _ _).
  - vm_compute; reflexivity.
  - apply rtc_once. exists 2, knspace, (CallSet "w" (VObj 7)), (Ok tt).
    vm_compute; reflexivity.
Defined.

Lemma set_knspace_stores_witness :
  regular (fst (_set_knspace 3 1 ArgClone two_widgets)) ∧
  ∃ old σ1 ob b,
    _get_knspace 3 1 two_widgets = (σ1, Ok old) ∧
    objs (fst (_set_knspace 3 1 ArgClone two_widgets)) !! 1 = Some ob ∧
    mixin ob = Some b ∧
    (∃ N C oc, old = Some N ∧ _knspace b = Some C ∧ last_knspace b = Some C ∧
       spaces two_widgets !! C = None ∧
       spaces (fst (_set_knspace 3 1 ArgClone two_widgets)) !! C = Some oc ∧
       parent oc = Some N) ∧
    ∀ ns, _knspace b = Some ns →
      ∀ fuel', _get_knspace (S fuel') 1 (fst (_set_knspace 3 1 ArgClone two_widgets))
               = (fst (_set_knspace 3 1 ArgClone two_widgets), Ok (Some ns)).
Proof.
  refine (set_knspace_stores 3 1 ArgClone two_widgets _
            (widget false ∅) (MkBehavior None "" "parent" None) _ _ _ _ _).
  - refine (proj1 (bool_decide_eq_true _) _). vm_compute; reflexivity.
  - vm_compute; reflexivity.
  - reflexivity.
  - refine (proj1 (bool_decide_eq_true _) _). vm_compute; reflexivity.
  - vm_compute; reflexivity.
Defined.

Lemma set_knspace_moves_name_witness :
  ∃ old new σ1 τ,
    _get_knspace 3 1 moved = (σ1, Ok old) ∧
    _get_knspace 3 1 (fst (_set_knspace 3 1 (ArgSpace 1) moved)) = (τ, Ok (Some new)) ∧
    (∀ fuel', ∃ v,
       KNSpace.getattr (S fuel') (fst (_set_knspace 3 1 (ArgSpace 1) moved)) new "w" = Ok v ∧
       eq_self 1 v = true) ∧
    (∀ N, old = Some N → N ≠ new →
       ∀ fuel',
         KNSpace.getattr (S fuel') (fst (_set_knspace 3 1 (ArgSpace 1) moved)) N "w"
         = Ok VNone).
Proof.
  refine (set_knspace_moves_name 3 1 (ArgSpace 1) moved _
            (MkObject ∅ None false (Some (MkBehavior None "w" "parent" (Some knspace))))
            (MkBehavior None "w" "parent" (Some knspace)) _ _ _ _).
  - vm_compute; reflexivity.
  - reflexivity.
  - reflexivity.
  - vm_compute; reflexivity.
Defined.

Lemma clone_needs_namespace_witness :
  _set_knspace 3 1 ArgClone orphan
  = (fst (_get_knspace 3 1 orphan), Raise ValueError_clone) ∧
  cache_only orphan (fst (_get_knspace 3 1 orphan)).
Proof.
  refine (clone_needs_namespace 3 1 orphan _ _).
  vm_compute; reflexivity.
Defined.

Lemma set_knspace_name_error_witness :
  ArgNone = ArgNone ∧ nonempty "w" = true ∧
  (∃ ob b,
     objs (fst (_set_knspace 4 1 ArgNone (fst (_set_name 4 1 "w" orphan)))) !! 1 = Some ob ∧
     mixin ob = Some b ∧ _knspace b = None ∧ _name b = "w") ∧
  (∃ τ, _get_knspace 4 1 (fst (_set_knspace 4 1 ArgNone (fst (_set_name 4 1 "w" orphan))))
        = (τ, Ok None)) ∧
  ∀ N σ1, _get_knspace 4 1 (fst (_set_name 4 1 "w" orphan)) = (σ1, Ok (Some N)) →
    ∀ fuel',
      KNSpace.getattr (S fuel')
        (fst (_set_knspace 4 1 ArgNone (fst (_set_name 4 1 "w" orphan)))) N "w"
      = Ok VNone.
Proof.
  refine (set_knspace_name_error 4 1 ArgNone (fst (_set_name 4 1 "w" orphan)) _ "w" _).
  vm_compute; reflexivity.
Defined.

Lemma rename_clears_old_name_witness :
  ∃ N σ1, _get_knspace 3 1 moved = (σ1, Ok (Some N)) ∧
    _get_name 1 (fst (_set_name 3 1 "n2" moved))
    = (fst (_set_name 3 1 "n2" moved), Ok "n2") ∧
    ∀ fuel',
      KNSpace.getattr (S fuel') (fst (_set_name 3 1 "n2" moved)) N "w" = Ok VNone ∧
      ∃ v, KNSpace.getattr (S fuel') (fst (_set_name 3 1 "n2" moved)) N "n2" = Ok v ∧
           eq_self 1 v = true.
Proof.
  refine (rename_clears_old_name 3 1 "n2" moved _
            (MkObject ∅ None false (Some (MkBehavior None "w" "parent" (Some knspace))))
            (MkBehavior None "w" "parent" (Some knspace)) _ _ _ _ _ _).
  - vm_compute; reflexivity.
  - reflexivity.
  - reflexivity.
  - reflexivity.
  - intros ?; discriminate.
  - vm_compute; reflexivity.
Defined.

Lemma naming_leaves_other_names_witness :
  regular (fst (_set_name 3 1 "n2" moved)) ∧
  ∀ fuel' r,
    KNSpace.getattr fuel' (fst (_set_name 3 1 "n2" moved)) r "x"
    = KNSpace.getattr fuel' moved r "x".
Proof.
  refine (naming_leaves_other_names 3 1 "n2" moved _ (Ok tt)
            (MkObject ∅ None false (Some (MkBehavior None "w" "parent" (Some knspace))))
            (MkBehavior None "w" "parent" (Some knspace)) "x" _ _ _ _ _ _ _ _).
  - refine (proj1 (bool_decide_eq_true _) _). vm_compute; reflexivity.
  - vm_compute; reflexivity.
  - reflexivity.
  - refine (proj1 (bool_decide_eq_true _) _). vm_compute; reflexivity.
  - refine (proj1 (bool_decide_eq_true _) _). vm_compute; reflexivity.
  - intros ?; discriminate.
  - intros ?; discriminate.
  - vm_compute; reflexivity.
Defined.

Lemma clear_name_without_namespace_witness :
  ∃ σ', _set_name 4 1 "" orphan = (σ', Ok tt) ∧
        spaces σ' = spaces orphan ∧
        _get_name 1 σ' = (σ', Ok "").
Proof.
  refine (clear_name_without_namespace 4 1 orphan (fst (_get_knspace 4 1 orphan)) _).
  vm_compute; reflexivity.
Defined.
